(** * get_crt_sh: incremental harvesting of crt.sh certificates

    A shallow embedding of [python3_cron_scripts/get_crt_sh.py].  The script
    talks to four outside parties (the crt.sh web service, a DNS resolver, an
    X.509 parser and a MongoDB database); they appear here as section
    variables (the service, the resolver, the parser, the JSON decoder) and
    as an explicit [world] that every function threads (the database, the
    request log, the disk).  Diagnostics printed on stdout are not part of
    the model. *)

From Stdlib Require Import String Ascii List ZArith Bool Lia.
From Stdlib Require Import DecimalString DecimalZ.
Import ListNotations.

Open Scope Z_scope.
Open Scope list_scope.

(* ================================================================== *)
(** ** Python strings *)

Module PyStr.

Notation "a +++ b" := (String.append a b)
  (at level 60, right associativity).

(** [str(n)] for a Python integer. *)
Definition str (n : Z) : string := NilZero.string_of_int (Z.to_int n).

(** [s.endswith(suffix)]. *)
Definition endswith (s suffix : string) : bool :=
  let n := String.length s in
  let m := String.length suffix in
  (m <=? n)%nat && String.eqb (substring (n - m) m s) suffix.

(** [c in s] for a one-character needle. *)
Fixpoint contains_char (c : ascii) (s : string) : bool :=
  match s with
  | EmptyString => false
  | String a rest => Ascii.eqb a c || contains_char c rest
  end.

(** [x in l] on a list of strings / of integers. *)
Definition in_strs (x : string) (l : list string) : bool :=
  existsb (String.eqb x) l.

Definition in_ints (x : Z) (l : list Z) : bool :=
  existsb (Z.eqb x) l.

End PyStr.
Import PyStr.

(* ================================================================== *)
(** ** Outcomes of a Python computation *)

(** The exception classes the script can meet.  The first four belong to
    the [requests.exceptions.RequestException] hierarchy. *)
Inductive exn : Type :=
| ConnectionError
| HTTPError
| Timeout
| OtherRequestException
| TypeError
| KeyError
| JSONDecodeError
| UnboundLocalError
| FileNotFoundError
| OtherException.

Definition is_RequestException (e : exn) : bool :=
  match e with
  | ConnectionError | HTTPError | Timeout | OtherRequestException => true
  | _ => false
  end.

(** A computation returns a value, leaves through [exit(code)], or dies
    with an exception nobody catches. *)
Inductive result (A : Type) : Type :=
| Ok (a : A)
| Exit (code : Z)
| Raise (e : exn).
Arguments Ok {A} a.
Arguments Exit {A} code.
Arguments Raise {A} e.

(** Exit status of the interpreter: an uncaught exception ends the process
    with status 1. *)
Definition exit_status {A} (r : result A) : Z :=
  match r with
  | Ok _ => 0
  | Exit code => code
  | Raise _ => 1
  end.

(* ================================================================== *)
(** ** Data *)

(** A document of the certificate-transparency collection. *)
Record certificate : Type := mkCert {
  fingerprint_sha256 : string;
  crt_sh_min_id : option Z;          (* absent until crt.sh names it *)
  not_after : Z;
  isExpired : bool;
  sources : list string;
  other_fields : list (string * string)
}.

(** One element of the JSON array crt.sh answers a zone query with. *)
Record ct_log_entry : Type := mkEntry {
  min_cert_id : Z;
  name_value : string
}.

(** What [json.loads] can hand back to the zone loop, by what the loop does
    with it.  [JNull] is [None].  [JArray entries] is a value the loop walks
    to its end, meeting these entries: an array of objects that all have both
    keys; an empty object and an empty string, which give the loop nothing to
    walk, count as the empty array.  [JMissingKey] is an array in which the
    first item the loop cannot use is an object without [min_cert_id] or
    without [name_value]: indexing it is a [KeyError].  [JOther] is every
    other value: a number or a boolean cannot be walked, and the items of a
    non-empty string or object, or an array item that is no object, cannot be
    indexed by a key: a [TypeError]. *)
Inductive json_value : Type :=
| JNull
| JArray (entries : list ct_log_entry)
| JOther
| JMissingKey.

(** One answer of the DNS resolver and one row handed to the DNS manager. *)
Record dns_result : Type := mkDnsResult {
  result_fqdn : string;
  result_type : string;
  result_value : string
}.

Record dns_record : Type := mkDnsRecord {
  fqdn : string;
  zone : string;
  created : Z;
  type : string;
  value : string;
  status : string
}.

(** [requests.get] either raises or returns a response object. *)
Record response : Type := mkResponse {
  status_code : Z;
  text : string;
  content : string
}.

Inductive get_outcome : Type :=
| GetRaises (e : exn)
| GetReturns (req : response).

Inductive job_event : Type := JobStart | JobComplete.

(** Everything the script can change. *)
Record world : Type := mkWorld {
  ct_collection : list certificate;
  dns_inserted : list (dns_record * string);
  requests_made : list string;
  files_written : list (string * string);
  dirs_made : list string;
  slept : list Z;
  jobs : list job_event
}.

Definition with_ct (f : list certificate -> list certificate) (w : world) : world :=
  mkWorld (f (ct_collection w)) (dns_inserted w) (requests_made w)
          (files_written w) (dirs_made w) (slept w) (jobs w).

Definition with_dns (f : list (dns_record * string) -> list (dns_record * string))
  (w : world) : world :=
  mkWorld (ct_collection w) (f (dns_inserted w)) (requests_made w)
          (files_written w) (dirs_made w) (slept w) (jobs w).

Definition with_requests (f : list string -> list string) (w : world) : world :=
  mkWorld (ct_collection w) (dns_inserted w) (f (requests_made w))
          (files_written w) (dirs_made w) (slept w) (jobs w).

Definition with_files (f : list (string * string) -> list (string * string))
  (w : world) : world :=
  mkWorld (ct_collection w) (dns_inserted w) (requests_made w)
          (f (files_written w)) (dirs_made w) (slept w) (jobs w).

Definition with_dirs (f : list string -> list string) (w : world) : world :=
  mkWorld (ct_collection w) (dns_inserted w) (requests_made w)
          (files_written w) (f (dirs_made w)) (slept w) (jobs w).

Definition with_slept (f : list Z -> list Z) (w : world) : world :=
  mkWorld (ct_collection w) (dns_inserted w) (requests_made w)
          (files_written w) (dirs_made w) (f (slept w)) (jobs w).

Definition with_jobs (f : list job_event -> list job_event) (w : world) : world :=
  mkWorld (ct_collection w) (dns_inserted w) (requests_made w)
          (files_written w) (dirs_made w) (slept w) (f (jobs w)).

(* ================================================================== *)
(** ** The monad: state that survives exits and exceptions *)

Definition M (A : Type) : Type := world -> result A * world.

Definition ret {A} (a : A) : M A := fun w => (Ok a, w).

Definition bind {A B} (m : M A) (k : A -> M B) : M B :=
  fun w =>
    match m w with
    | (Ok a, w') => k a w'
    | (Exit code, w') => (Exit code, w')
    | (Raise e, w') => (Raise e, w')
    end.

Definition exit {A} (code : Z) : M A := fun w => (Exit code, w).
Definition raise {A} (e : exn) : M A := fun w => (Raise e, w).
Definition modify (f : world -> world) : M unit := fun w => (Ok tt, f w).
Definition gets {A} (f : world -> A) : M A := fun w => (Ok (f w), w).

Declare Scope py_scope.
Delimit Scope py_scope with py.
Notation "x <- m ;; k" := (bind m (fun x => k))
  (at level 61, m at next level, right associativity) : py_scope.
Notation "m ;; k" := (bind m (fun _ => k))
  (at level 61, right associativity) : py_scope.
Open Scope py_scope.

(** [for x in l: body(x)]. *)
Fixpoint for_each {A} (l : list A) (body : A -> M unit) : M unit :=
  match l with
  | [] => ret tt
  | x :: rest => body x ;; for_each rest body
  end.

(** [time.sleep(seconds)]. *)
Definition sleep (seconds : Z) : M unit :=
  modify (with_slept (fun l => l ++ [seconds])).

(* ================================================================== *)
(** ** MongoDB collection operations used by the script *)

Module Mongo.

(** [collection.find(filter)]. *)
Definition find (p : certificate -> bool) (c : list certificate) : list certificate :=
  filter p c.

(** [cursor.count()]. *)
Definition count (cursor : list certificate) : nat := length cursor.

(** [collection.update_one(filter, update)]: the first matching document. *)
Fixpoint update_one (p : certificate -> bool) (u : certificate -> certificate)
  (c : list certificate) : list certificate :=
  match c with
  | [] => []
  | d :: rest => if p d then u d :: rest else d :: update_one p u rest
  end.

(** [collection.update(filter, update, multi=True)]: every matching document. *)
Definition update_multi (p : certificate -> bool) (u : certificate -> certificate)
  (c : list certificate) : list certificate :=
  map (fun d => if p d then u d else d) c.

(** [collection.insert_one(doc)]. *)
Definition insert_one (d : certificate) (c : list certificate) : list certificate :=
  c ++ [d].

(** [{"$set": {"crt_sh_min_id": v}}]. *)
Definition set_crt_sh_min_id (v : Z) (d : certificate) : certificate :=
  mkCert (fingerprint_sha256 d) (Some v) (not_after d) (isExpired d)
         (sources d) (other_fields d).

(** [{"$addToSet": {"sources": tag}}]. *)
Definition addToSet_sources (tag : string) (d : certificate) : certificate :=
  mkCert (fingerprint_sha256 d) (crt_sh_min_id d) (not_after d) (isExpired d)
         (if in_strs tag (sources d) then sources d else sources d ++ [tag])
         (other_fields d).

(** [{"$set": {"isExpired": b}}]. *)
Definition set_isExpired (b : bool) (d : certificate) : certificate :=
  mkCert (fingerprint_sha256 d) (crt_sh_min_id d) (not_after d) b
         (sources d) (other_fields d).

End Mongo.

(* ================================================================== *)
(** ** The script *)

Section Script.

(** The crt.sh service as seen through [requests.get]: the outcome may
    depend on how many requests were made before (outages come and go). *)
Variable requests_get : nat -> string -> get_outcome.

(** [json.loads] on a string: [None] stands for a [JSONDecodeError]. *)
Variable json_decode : string -> option json_value.

(** [X509Parser.parse_data(data, source)]; [None] when the bytes do not
    parse. *)
Variable parse_data : string -> string -> option certificate.

(** [GoogleDNS.fetch_DNS_records(hostname)]. *)
Variable fetch_DNS_records : string -> list dns_result.

(** [datetime.now()] and [datetime.utcnow()]. *)
Variable datetime_now : Z.
Variable datetime_utcnow : Z.

(** [req.raise_for_status()]: 4xx and 5xx answers raise [HTTPError]. *)
Definition raise_for_status (req : response) : result response :=
  if (400 <=? status_code req) && (status_code req <? 600)
  then Raise HTTPError
  else Ok req.

(** The [try] block of [make_https_request]. *)
Definition try_get (n : nat) (url : string) : result response :=
  match requests_get n url with
  | GetRaises e => Raise e
  | GetReturns req => raise_for_status req
  end.

(** [make_https_request(url, download=False)]: what the function returns
    when the request is the [n]-th one of the run ... *)
Definition fetch_outcome (n : nat) (url : string) (download : bool)
  : result (option string) :=
  match try_get n url with
  | Raise ConnectionError => Ok None
  | Raise HTTPError => Ok None
  | Raise e => if is_RequestException e then Ok None else Raise e
  | Exit code => Exit code
  | Ok req =>
      if negb (status_code req =? 200) then Ok None
      else if download then Ok (Some (content req))
      else Ok (Some (text req))
  end.

(** ... and the function itself, which also leaves the URL in the log. *)
Definition make_https_request (url : string) (download : bool) : M (option string) :=
  fun w =>
    (fetch_outcome (length (requests_made w)) url download,
     with_requests (fun l => l ++ [url]) w).

(** [get_tracked_zone(name, zones)]. *)
Fixpoint get_tracked_zone (name : string) (zones : list string) : option string :=
  match zones with
  | [] => None
  | zone :: rest =>
      if endswith name ("." +++ zone) || String.eqb name zone
      then Some zone
      else get_tracked_zone name rest
  end.

(** Modelled from the spec: [DNSManager.insert_record] is not among the
    sources; section 6 gives the DNS collection a plain insert and section
    4.5 says no deduplication happens, so a call appends one row. *)
Definition insert_record (new_record : dns_record) (source : string) : M unit :=
  modify (with_dns (fun l => l ++ [(new_record, source)])).

(** [add_new_domain_names(hostnames, zones, mongo_connector)]. *)
Definition add_new_domain_names (hostnames zones : list string) : M unit :=
  for_each hostnames (fun hostname =>
    let results := fetch_DNS_records hostname in
    match results with
    | [] => ret tt
    | _ =>
      for_each results (fun result =>
        match get_tracked_zone (result_fqdn result) zones with
        | Some temp_zone =>
            insert_record
              (mkDnsRecord (result_fqdn result) temp_zone datetime_now
                           (result_type result) (result_value result) "unknown")
              "ssl"
        | None => ret tt
        end)
    end).

(** [get_list_of_existing_certificates(ct_collection)]. *)
Definition has_crt_sh_min_id (d : certificate) : bool :=
  match crt_sh_min_id d with Some _ => true | None => false end.

Definition get_list_of_existing_certificates (c : list certificate) : list Z :=
  fold_left
    (fun existing_ids result =>
       match crt_sh_min_id result with
       | Some i => if in_ints i existing_ids then existing_ids
                   else existing_ids ++ [i]
       | None => existing_ids
       end)
    (Mongo.find has_crt_sh_min_id c) [].

Definition cert_url (min_cert_id : Z) : string :=
  "https://crt.sh/?d=" +++ str min_cert_id.

Definition has_fingerprint (fp : string) (d : certificate) : bool :=
  String.eqb (fingerprint_sha256 d) fp.

(** The merge at the end of the loop body of [add_new_certificate_values]. *)
Definition merge_certificate (min_cert_id : Z) (cert : certificate)
  (c : list certificate) : list certificate :=
  if negb (Mongo.count (Mongo.find (has_fingerprint (fingerprint_sha256 cert)) c)
           =? 0)%nat
  then Mongo.update_one (has_fingerprint (fingerprint_sha256 cert))
         (fun d => Mongo.addToSet_sources "crt_sh"
                     (Mongo.set_crt_sh_min_id min_cert_id d)) c
  else Mongo.insert_one (Mongo.set_crt_sh_min_id min_cert_id cert) c.

(** The download with its single retry. *)
Definition download_certificate (min_cert_id : Z) : M string :=
  c_file <- make_https_request (cert_url min_cert_id) true ;;
  match c_file with
  | Some data => ret data
  | None =>
      sleep 3 ;;
      c_file <- make_https_request (cert_url min_cert_id) true ;;
      match c_file with
      | Some data => ret data
      | None => exit 1
      end
  end.

(** The body of the loop of [add_new_certificate_values]. *)
Definition ingest (existing_ids : list Z) (save_location : option string)
  (min_cert_id : Z) : M unit :=
  if negb (in_ints min_cert_id existing_ids) then
    c_file <- download_certificate min_cert_id ;;
    match save_location with
    | Some dir =>
        modify (with_files (fun l =>
          l ++ [(dir +++ str min_cert_id +++ ".crt", c_file)]))
    | None => ret tt
    end ;;
    match parse_data c_file "crt_sh" with
    | None => ret tt                                       (* continue *)
    | Some cert => modify (with_ct (merge_certificate min_cert_id cert))
    end
  else ret tt.

(** [add_new_certificate_values(new_ids, ct_collection, save_location)]. *)
Definition add_new_certificate_values (new_ids : list Z)
  (save_location : option string) : M unit :=
  existing_ids <- gets (fun w => get_list_of_existing_certificates (ct_collection w)) ;;
  for_each new_ids (ingest existing_ids save_location).

(** [check_save_location(save_location)].  The empty path never exists and
    [os.makedirs] refuses it with [FileNotFoundError]; any other path is
    created unless it is there (the disk is taken to be writable). *)
Definition check_save_location (save_location : string) : M unit :=
  if String.eqb save_location "" then raise FileNotFoundError
  else
    modify (with_dirs (fun l =>
      if in_strs save_location l then l else l ++ [save_location])).

(** Command line, after [argparse]. *)
Inductive download_method : Type := dbAndSave | dbOnly.

Record arguments : Type := mkArgs {
  fetch_dns_records : bool;
  download_methods : option download_method;
  cert_save_location : string
}.

(** [json.loads(x)]: a [None] argument is a [TypeError]. *)
Definition json_loads (x : option string) : M json_value :=
  match x with
  | None => raise TypeError
  | Some s =>
      match json_decode s with
      | Some v => ret v
      | None => raise JSONDecodeError
      end
  end.

Definition zone_url (zone : string) : string :=
  "https://crt.sh/?q=%25." +++ zone +++ "&output=json".

Definition is_None (v : json_value) : bool :=
  match v with JNull => true | _ => false end.

(** The query of one zone, with its retry. *)
Definition query_zone (zone : string) : M json_value :=
  r <- make_https_request (zone_url zone) false ;;
  json_result <- json_loads r ;;
  if is_None json_result then
    sleep 3 ;;
    r <- make_https_request (zone_url zone) false ;;
    json_result <- json_loads r ;;
    if is_None json_result then exit 0 else ret json_result
  else ret json_result.

(** The inner loop over the entries of one answer: [(new_names, new_ids)]
    both start empty. *)
Definition collect_step (acc : list string * list Z) (entry : ct_log_entry)
  : list string * list Z :=
  let '(new_names, new_ids) := acc in
  let new_ids :=
    if negb (in_ints (min_cert_id entry) new_ids)
    then new_ids ++ [min_cert_id entry] else new_ids in
  let new_names :=
    if negb (contains_char "*" (name_value entry))
       && negb (in_strs (name_value entry) new_names)
    then new_names ++ [name_value entry] else new_names in
  (new_names, new_ids).

Definition collect (entries : list ct_log_entry) : list string * list Z :=
  fold_left collect_step entries ([], []).

(** The loop over the zones.  [vars] holds the local variables
    [new_names] and [new_ids], unbound before the first iteration. *)
Fixpoint zone_loop (zones : list string) (vars : option (list string * list Z))
  : M (option (list string * list Z)) :=
  match zones with
  | [] => ret vars
  | zone :: rest =>
      sleep 5 ;;
      json_result <- query_zone zone ;;
      match json_result with
      | JArray entries => zone_loop rest (Some (collect entries))
      | JMissingKey => raise KeyError
      | _ => raise TypeError
      end
  end.

(** Reading a local variable. *)
Definition local {A} (v : option A) : M A :=
  match v with
  | Some a => ret a
  | None => raise UnboundLocalError
  end.

(** The closing update of [main]. *)
Definition newly_expired (now : Z) (d : certificate) : bool :=
  (not_after d <? now) && Bool.eqb (isExpired d) false.

Definition mark_expired (now : Z) (c : list certificate) : list certificate :=
  Mongo.update_multi (newly_expired now) (Mongo.set_isExpired true) c.

(** The save location [main] settles on. *)
Definition save_location_of (args : arguments) : string :=
  let save_location := "/mnt/workspace/crt_sh"%string in
  if negb (String.eqb (cert_save_location args) "") then
    if negb (endswith (cert_save_location args) "/")
    then cert_save_location args +++ "/"
    else cert_save_location args
  else save_location.

(** [main()] up to and including the DNS step; it hands over the local
    variables [new_names] and [new_ids] as the zone loop left them. *)
Definition harvest (zones : list string) (args : arguments)
  : M (option (list string * list Z)) :=
  modify (with_jobs (fun l => l ++ [JobStart])) ;;
  match download_methods args with
  | Some dbAndSave => check_save_location (save_location_of args)
  | _ => ret tt
  end ;;
  vars <- zone_loop zones None ;;
  (if fetch_dns_records args then
     names_ids <- local vars ;;
     add_new_domain_names (fst names_ids) zones
   else ret tt) ;;
  ret vars.

(** [main()], given the tracked zones and the parsed command line. *)
Definition main (zones : list string) (args : arguments) : M unit :=
  vars <- harvest zones args ;;
  match download_methods args with
  | Some dbAndSave =>
      names_ids <- local vars ;;
      add_new_certificate_values (snd names_ids) (Some (save_location_of args))
  | Some dbOnly =>
      names_ids <- local vars ;;
      add_new_certificate_values (snd names_ids) None
  | None => ret tt
  end ;;
  modify (with_ct (mark_expired datetime_utcnow)) ;;
  modify (with_jobs (fun l => l ++ [JobComplete])).

End Script.

(* ================================================================== *)
(** ** Vocabulary of the statements *)

(** The hostname equals the zone or ends with a dot followed by the zone. *)
Definition suffix_match (name zone : string) : Prop :=
  name = zone \/ exists p, name = p +++ "." +++ zone.

(** [z] is the first zone of the sequence that [name] matches. *)
Definition first_match (name : string) (zones : list string) (z : string) : Prop :=
  exists before after,
    zones = before ++ z :: after /\ suffix_match name z /\
    forall z', In z' before -> ~ suffix_match name z'.

(** Documents keep their place in the collection; [c'] still holds every
    document of [c], with the same fingerprint, and still expired if it
    was. *)
Definition expiry_kept (c c' : list certificate) : Prop :=
  forall i d, nth_error c i = Some d ->
    exists d', nth_error c' i = Some d' /\
               fingerprint_sha256 d' = fingerprint_sha256 d /\
               (isExpired d = true -> isExpired d' = true).

(** The step left the certificates and the disk alone and only asked
    crt.sh about tracked zones. *)
Definition only_zone_queries (zones : list string) (w w' : world) : Prop :=
  ct_collection w' = ct_collection w /\
  files_written w' = files_written w /\
  exists added,
    requests_made w' = requests_made w ++ added /\
    Forall (fun url => exists z, In z zones /\ url = zone_url z) added.

(** How many documents carry the fingerprint, and how often a document
    lists the tag [crt_sh] among its sources. *)
Definition count_fingerprint (fp : string) (c : list certificate) : nat :=
  Mongo.count (Mongo.find (has_fingerprint fp) c).

Definition tag_count (d : certificate) : nat :=
  count_occ string_dec (sources d) "crt_sh"%string.

(** The update applied to a document that is already there. *)
Definition link (min_cert_id : Z) (d : certificate) : certificate :=
  Mongo.addToSet_sources "crt_sh" (Mongo.set_crt_sh_min_id min_cert_id d).

(** Exactly one document carries the fingerprint, and it lists the tag
    [crt_sh] once. *)
Definition stored_once (fp : string) (c : list certificate) : Prop :=
  count_fingerprint fp c = 1%nat /\
  forall d, In d c -> fingerprint_sha256 d = fp -> tag_count d = 1%nat.

(* ================================================================== *)
(** ** Concrete inputs *)

Definition empty_world : world := mkWorld [] [] [] [] [] [] [].

Definition store (c : list certificate) : world := mkWorld c [] [] [] [] [] [].

(** A small crt.sh: two zones, and two identifiers serving the same bytes. *)
Definition example_get (_ : nat) (url : string) : get_outcome :=
  if String.eqb url (zone_url "a.example") then
    GetReturns (mkResponse 200 "zone-a" "zone-a")
  else if String.eqb url (zone_url "b.example") then
    GetReturns (mkResponse 200 "zone-b" "zone-b")
  else if String.eqb url (cert_url 100) || String.eqb url (cert_url 200) then
    GetReturns (mkResponse 200 "CERT-abc" "CERT-abc")
  else GetRaises ConnectionError.

(** crt.sh out of reach. *)
Definition service_down (_ : nat) (_ : string) : get_outcome :=
  GetRaises ConnectionError.

Definition example_decode (body : string) : option json_value :=
  if String.eqb body "zone-a" then
    Some (JArray [mkEntry 100 "www.a.example"; mkEntry 300 "*.a.example"])
  else if String.eqb body "zone-b" then
    Some (JArray [mkEntry 200 "www.b.example"])
  else None.

Definition example_cert : certificate :=
  mkCert "abc" None 1700000000 false ["crt_sh"%string] [].

Definition example_parse (data source : string) : option certificate :=
  if String.eqb data "CERT-abc" then
    Some (mkCert "abc" None 1700000000 false [source] [])
  else None.

Definition example_dns (hostname : string) : list dns_result :=
  if String.eqb hostname "www.a.example"
  then [mkDnsResult "www.a.example" "a" "192.0.2.1";
        mkDnsResult "cdn.elsewhere.example" "cname" "www.a.example"]
  else [].

Definition example_args (dns : bool) (m : option download_method) : arguments :=
  mkArgs dns m "/tmp/crt_sh".

(* ================================================================== *)
(** ** Facts about Python strings *)

Section StringFacts.

Lemma length_append (s t : string) :
  String.length (s +++ t) = (String.length s + String.length t)%nat.
Proof. induction s as [|c s IH]; simpl; [reflexivity | now rewrite IH]. Qed.

Lemma substring_all (s : string) : substring 0 (String.length s) s = s.
Proof. induction s as [|c s IH]; simpl; [reflexivity | now rewrite IH]. Qed.

Lemma substring_skip (p s : string) (m : nat) :
  substring (String.length p) m (p +++ s) = substring 0 m s.
Proof. induction p as [|c p IH]; simpl; [reflexivity | exact IH]. Qed.

Lemma substring_split (s : string) (n : nat) :
  (n <= String.length s)%nat ->
  s = substring 0 n s +++ substring n (String.length s - n) s.
Proof.
  revert n. induction s as [|c s IH]; intros n Hn; simpl in Hn.
  - assert (n = 0%nat) by lia. subst. reflexivity.
  - destruct n as [|n].
    + simpl. now rewrite substring_all.
    + simpl. f_equal. apply IH. lia.
Qed.

Lemma endswith_spec (s suffix : string) :
  endswith s suffix = true <-> exists p, s = p +++ suffix.
Proof.
  unfold endswith. rewrite andb_true_iff, Nat.leb_le, String.eqb_eq. split.
  - intros [Hle Hsub].
    exists (substring 0 (String.length s - String.length suffix) s).
    rewrite <- Hsub at 2.
    pose proof (substring_split s (String.length s - String.length suffix)) as Hs.
    replace (String.length s - (String.length s - String.length suffix))%nat
      with (String.length suffix) in Hs by lia.
    apply Hs. lia.
  - intros [p ->]. rewrite length_append. split; [lia|].
    replace (String.length p + String.length suffix - String.length suffix)%nat
      with (String.length p) by lia.
    rewrite substring_skip. apply substring_all.
Qed.

Lemma append_inj_r (p a b : string) : p +++ a = p +++ b -> a = b.
Proof.
  induction p as [|c p IH]; simpl; intros H; [exact H|].
  injection H as H. auto.
Qed.

Lemma to_int_not_nil (n : Z) :
  Z.to_int n <> Decimal.Pos Decimal.Nil /\ Z.to_int n <> Decimal.Neg Decimal.Nil.
Proof.
  destruct n as [|p|p]; simpl; split; try discriminate;
    intros H; injection H as H;
    exact (DecimalPos.Unsigned.to_uint_nonnil p H).
Qed.

Lemma str_inj (a b : Z) : str a = str b -> a = b.
Proof.
  unfold str. intros H.
  destruct (to_int_not_nil a) as [Ha1 Ha2].
  destruct (to_int_not_nil b) as [Hb1 Hb2].
  pose proof (NilZero.isi _ Ha1 Ha2) as Ia.
  pose proof (NilZero.isi _ Hb1 Hb2) as Ib.
  rewrite H in Ia. rewrite Ia in Ib. injection Ib as Ib.
  now apply DecimalZ.to_int_inj.
Qed.

Lemma in_ints_iff (x : Z) (l : list Z) : in_ints x l = true <-> In x l.
Proof.
  unfold in_ints. rewrite existsb_exists. split.
  - intros [y [Hy Heq]]. apply Z.eqb_eq in Heq. now subst.
  - intros H. exists x. split; [exact H | apply Z.eqb_refl].
Qed.

Lemma in_strs_iff (x : string) (l : list string) : in_strs x l = true <-> In x l.
Proof.
  unfold in_strs. rewrite existsb_exists. split.
  - intros [y [Hy Heq]]. apply String.eqb_eq in Heq. now subst.
  - intros H. exists x. split; [exact H | apply String.eqb_refl].
Qed.

Lemma in_ints_false (x : Z) (l : list Z) : in_ints x l = false <-> ~ In x l.
Proof.
  rewrite <- in_ints_iff. destruct (in_ints x l); split; congruence.
Qed.

Lemma in_strs_false (x : string) (l : list string) :
  in_strs x l = false <-> ~ In x l.
Proof.
  rewrite <- in_strs_iff. destruct (in_strs x l); split; congruence.
Qed.

End StringFacts.

(* ================================================================== *)
(** ** The save directory of a run *)

Section SaveDirectory.

Lemma save_location_of_nonempty (args : arguments) :
  String.eqb (save_location_of args) "" = false.
Proof.
  unfold save_location_of.
  destruct (String.eqb_spec (cert_save_location args) "") as [E|E]; cbn [negb].
  - reflexivity.
  - destruct (endswith (cert_save_location args) "/"); cbn [negb].
    + now apply String.eqb_neq.
    + apply String.eqb_neq. intros H.
      apply (f_equal String.length) in H. rewrite length_append in H.
      simpl in H. lia.
Qed.

(** [main] never hands the empty path to [check_save_location]. *)
Lemma check_save_location_of_args (args : arguments) :
  check_save_location (save_location_of args)
  = modify (with_dirs (fun l =>
      if in_strs (save_location_of args) l then l
      else l ++ [save_location_of args])).
Proof.
  unfold check_save_location. now rewrite save_location_of_nonempty.
Qed.

End SaveDirectory.

(* ================================================================== *)
(** ** The fetch: [make_https_request] *)

Section Fetch.

Variable requests_get : nat -> string -> get_outcome.

(** Whatever happens, the request is logged and nothing else changes. *)
Lemma make_https_request_world (url : string) (download : bool) (w : world) :
  snd (make_https_request requests_get url download w)
  = with_requests (fun l => l ++ [url]) w.
Proof. reflexivity. Qed.

(** C9.  The fetch never lets an exception of the [requests] hierarchy
    escape (connection error, HTTP error status, any other transport
    exception): it returns [None].  A response whose status is not 200 gives
    [None] whatever its body; a 200 response gives the body, as bytes when
    [download] is set and as text otherwise. *)
Theorem make_https_request_failure_or_body
  (url : string) (download : bool) (w : world) :
  let outcome := requests_get (length (requests_made w)) url in
  let returned := fst (make_https_request requests_get url download w) in
  (forall e, outcome = GetRaises e -> is_RequestException e = true ->
             returned = Ok None) /\
  (forall req, outcome = GetReturns req -> status_code req <> 200 ->
               returned = Ok None) /\
  (forall req, outcome = GetReturns req -> status_code req = 200 ->
               returned = Ok (Some (if download then content req else text req))).
Proof.
  cbv zeta. unfold make_https_request, fetch_outcome, try_get, raise_for_status.
  cbn [fst]. repeat split.
  - intros e -> He. destruct e; simpl in He; try discriminate; reflexivity.
  - intros req -> Hs.
    destruct ((400 <=? status_code req) && (status_code req <? 600));
      [reflexivity|].
    apply Z.eqb_neq in Hs. now rewrite Hs.
  - intros req -> Hs. rewrite Hs. simpl. rewrite Hs. simpl.
    destruct download; reflexivity.
Qed.

End Fetch.

(* ================================================================== *)
(** ** Zone attribution and the DNS rows *)

Section Zones.

Lemma suffix_match_test (name zone : string) :
  endswith name ("." +++ zone) || String.eqb name zone = true
  <-> suffix_match name zone.
Proof.
  unfold suffix_match.
  rewrite orb_true_iff, endswith_spec, String.eqb_eq. tauto.
Qed.

Lemma get_tracked_zone_Some (name : string) (zones : list string) (z : string) :
  get_tracked_zone name zones = Some z <-> first_match name zones z.
Proof.
  unfold first_match.
  induction zones as [|zone rest IH]; cbn [get_tracked_zone].
  - split; [discriminate|].
    intros [before [after [H _]]]. destruct before; discriminate.
  - destruct (endswith name ("." +++ zone) || String.eqb name zone) eqn:E.
    + apply suffix_match_test in E. split.
      * intros H. injection H as <-. exists [], rest. simpl. auto.
      * intros [before [after [Hz [Hm Hno]]]].
        destruct before as [|b before]; simpl in Hz; injection Hz as -> ->.
        -- reflexivity.
        -- exfalso. apply (Hno b); simpl; auto.
    + assert (Hn : ~ suffix_match name zone).
      { intros Hm. apply suffix_match_test in Hm. congruence. }
      rewrite IH. split.
      * intros [before [after [-> [Hm Hno]]]].
        exists (zone :: before), after. simpl. repeat split; auto.
        intros z' [<-|Hin]; auto.
      * intros [before [after [Hz [Hm Hno]]]].
        destruct before as [|b before]; simpl in Hz; injection Hz as -> ->.
        -- contradiction.
        -- exists before, after. repeat split; auto.
           intros z' Hin. apply Hno. simpl. auto.
Qed.

Lemma get_tracked_zone_None (name : string) (zones : list string) :
  get_tracked_zone name zones = None <->
  forall z, In z zones -> ~ suffix_match name z.
Proof.
  induction zones as [|zone rest IH]; cbn [get_tracked_zone].
  - split; [intros _ z [] | reflexivity].
  - destruct (endswith name ("." +++ zone) || String.eqb name zone) eqn:E.
    + apply suffix_match_test in E. split; [discriminate|].
      intros H. exfalso. apply (H zone); simpl; auto.
    + rewrite IH. split.
      * intros H z [<-|Hin]; [|now apply H].
        intros Hm. apply suffix_match_test in Hm. congruence.
      * intros H z Hin. apply H. now right.
Qed.

Variable fetch_DNS_records : string -> list dns_result.
Variable datetime_now : Z.

(** The rows one resolver answer gives rise to. *)
Definition rows_of (zones : list string) (result : dns_result)
  : list (dns_record * string) :=
  match get_tracked_zone (result_fqdn result) zones with
  | Some temp_zone =>
      [(mkDnsRecord (result_fqdn result) temp_zone datetime_now
                    (result_type result) (result_value result) "unknown",
        "ssl"%string)]
  | None => []
  end.

Lemma with_dns_app (a b : list (dns_record * string)) (w : world) :
  with_dns (fun l => l ++ b) (with_dns (fun l => l ++ a) w)
  = with_dns (fun l => l ++ (a ++ b)) w.
Proof. unfold with_dns; simpl. now rewrite app_assoc. Qed.

Lemma with_dns_nil (w : world) : with_dns (fun l => l ++ []) w = w.
Proof. destruct w; unfold with_dns; simpl. now rewrite app_nil_r. Qed.

Lemma results_loop_run (zones : list string) (results : list dns_result) (w : world) :
  for_each results (fun result =>
    match get_tracked_zone (result_fqdn result) zones with
    | Some temp_zone =>
        insert_record
          (mkDnsRecord (result_fqdn result) temp_zone datetime_now
                       (result_type result) (result_value result) "unknown")
          "ssl"
    | None => ret tt
    end) w
  = (Ok tt, with_dns (fun l => l ++ flat_map (rows_of zones) results) w).
Proof.
  revert w. induction results as [|r results IH]; intros w; simpl.
  - unfold ret. now rewrite with_dns_nil.
  - unfold bind at 1, rows_of at 1.
    destruct (get_tracked_zone (result_fqdn r) zones) as [z|].
    + unfold insert_record, modify. rewrite IH, with_dns_app. reflexivity.
    + unfold ret at 1. rewrite IH. reflexivity.
Qed.

Lemma add_new_domain_names_run (hostnames zones : list string) (w : world) :
  add_new_domain_names fetch_DNS_records datetime_now hostnames zones w
  = (Ok tt,
     with_dns (fun l => l ++ flat_map (fun hostname =>
                 flat_map (rows_of zones) (fetch_DNS_records hostname)) hostnames) w).
Proof.
  unfold add_new_domain_names.
  revert w. induction hostnames as [|h hostnames IH]; intros w; simpl.
  - unfold ret. now rewrite with_dns_nil.
  - unfold bind at 1.
    assert (Hh : match fetch_DNS_records h with
                 | [] => ret tt
                 | _ => for_each (fetch_DNS_records h) (fun result =>
                     match get_tracked_zone (result_fqdn result) zones with
                     | Some temp_zone =>
                         insert_record
                           (mkDnsRecord (result_fqdn result) temp_zone datetime_now
                              (result_type result) (result_value result) "unknown")
                           "ssl"
                     | None => ret tt
                     end)
                 end w
                 = (Ok tt, with_dns (fun l => l ++
                      flat_map (rows_of zones) (fetch_DNS_records h)) w)).
    { destruct (fetch_DNS_records h) as [|r rs] eqn:E.
      - unfold ret. simpl. now rewrite with_dns_nil.
      - apply results_loop_run. }
    rewrite Hh, IH, with_dns_app. reflexivity.
Qed.

(** C7.  Zone attribution returns the first zone of the tracked sequence
    that the hostname equals or ends with, after a dot; it returns nothing
    exactly when no tracked zone matches, so a hostname gets at most one
    zone.  The DNS step only appends rows: each row comes from a resolver
    answer, carries the zone attributed to its name and the status
    [unknown]; an answer whose name matches no tracked zone adds no row. *)
Theorem zone_attribution_first_match
  (hostnames zones : list string) (w : world) :
  (forall name z,
      get_tracked_zone name zones = Some z <-> first_match name zones z) /\
  (forall name,
      get_tracked_zone name zones = None <->
      forall z, In z zones -> ~ suffix_match name z) /\
  (forall name z1 z2,
      first_match name zones z1 -> first_match name zones z2 -> z1 = z2) /\
  exists added,
    add_new_domain_names fetch_DNS_records datetime_now hostnames zones w
    = (Ok tt, with_dns (fun l => l ++ added) w) /\
    (forall r src, In (r, src) added ->
       status r = "unknown"%string /\
       first_match (fqdn r) zones (zone r) /\
       exists hostname result,
         In hostname hostnames /\ In result (fetch_DNS_records hostname) /\
         fqdn r = result_fqdn result) /\
    (forall hostname result,
       In hostname hostnames -> In result (fetch_DNS_records hostname) ->
       (forall z, In z zones -> ~ suffix_match (result_fqdn result) z) ->
       forall r src, In (r, src) added -> fqdn r <> result_fqdn result) /\
    ((forall hostname result,
       In hostname hostnames -> In result (fetch_DNS_records hostname) ->
       forall z, In z zones -> ~ suffix_match (result_fqdn result) z) ->
     added = []).
Proof.
  split; [intros; apply get_tracked_zone_Some|].
  split; [intros; apply get_tracked_zone_None|].
  split.
  { intros name z1 z2 H1 H2.
    apply get_tracked_zone_Some in H1, H2. congruence. }
  eexists. split; [apply add_new_domain_names_run|].
  assert (Hrows : forall r src,
    In (r, src) (flat_map (fun hostname =>
      flat_map (rows_of zones) (fetch_DNS_records hostname)) hostnames) ->
    status r = "unknown"%string /\
    get_tracked_zone (fqdn r) zones = Some (zone r) /\
    exists hostname result,
      In hostname hostnames /\ In result (fetch_DNS_records hostname) /\
      fqdn r = result_fqdn result).
  { intros r src Hin.
    apply in_flat_map in Hin. destruct Hin as [h [Hh Hin]].
    apply in_flat_map in Hin. destruct Hin as [res [Hres Hin]].
    unfold rows_of in Hin.
    destruct (get_tracked_zone (result_fqdn res) zones) as [z|] eqn:E;
      [|destruct Hin].
    destruct Hin as [Heq|[]]. injection Heq as <- <-. simpl.
    repeat split; auto. exists h, res. auto. }
  split; [|split].
  - intros r src Hin. destruct (Hrows r src Hin) as [Hs [Hz Hex]].
    apply get_tracked_zone_Some in Hz. auto.
  - intros h res Hh Hres Hno r src Hin Heq.
    destruct (Hrows r src Hin) as [_ [Hz _]].
    apply get_tracked_zone_None in Hno. congruence.
  - intros Hno. clear Hrows.
    induction hostnames as [|h hs IH]; [reflexivity|]. simpl.
    rewrite IH.
    + rewrite app_nil_r.
      assert (Hh : forall result, In result (fetch_DNS_records h) ->
                get_tracked_zone (result_fqdn result) zones = None).
      { intros res Hres. apply get_tracked_zone_None.
        apply (Hno h res); simpl; auto. }
      induction (fetch_DNS_records h) as [|res l IHl]; [reflexivity|].
      simpl. unfold rows_of at 1. rewrite Hh by (simpl; auto).
      simpl. apply IHl. intros res' Hin. apply Hh. now right.
    + intros h' res Hin. apply Hno. now right.
Qed.

End Zones.

(* ================================================================== *)
(** ** Relations every step of a run respects *)

Section Frame.

Variable requests_get : nat -> string -> get_outcome.
Variable json_decode : string -> option json_value.
Variable parse_data : string -> string -> option certificate.
Variable fetch_DNS_records : string -> list dns_result.
Variable datetime_now datetime_utcnow : Z.

(** A relation between the world before and the world after, and the URLs
    it lets a step request. *)
Variable R : world -> world -> Prop.
Variable allowed : string -> Prop.

Hypothesis R_refl : forall w, R w w.
Hypothesis R_trans : forall a b c, R a b -> R b c -> R a c.
Hypothesis R_request :
  forall w url, allowed url -> R w (with_requests (fun l => l ++ [url]) w).
Hypothesis R_slept : forall w f, R w (with_slept f w).
Hypothesis R_jobs : forall w f, R w (with_jobs f w).
Hypothesis R_dirs : forall w f, R w (with_dirs f w).
Hypothesis R_dns : forall w f, R w (with_dns f w).
Hypothesis R_files : forall w f, R w (with_files f w).

(** [m] relates every world to the one it ends in, however it ends. *)
Definition keeps {A} (m : M A) : Prop := forall w, R w (snd (m w)).

Lemma keeps_ret {A} (a : A) : keeps (ret a).
Proof. intros w. apply R_refl. Qed.

Lemma keeps_exit {A} (code : Z) : keeps (@exit A code).
Proof. intros w. apply R_refl. Qed.

Lemma keeps_raise {A} (e : exn) : keeps (@raise A e).
Proof. intros w. apply R_refl. Qed.

Lemma keeps_gets {A} (f : world -> A) : keeps (gets f).
Proof. intros w. apply R_refl. Qed.

Lemma keeps_local {A} (v : option A) : keeps (local v).
Proof. destruct v; [apply keeps_ret | apply keeps_raise]. Qed.

Lemma keeps_modify (f : world -> world) :
  (forall w, R w (f w)) -> keeps (modify f).
Proof. intros H w. apply H. Qed.

Lemma keeps_bind {A B} (m : M A) (k : A -> M B) :
  keeps m -> (forall a, keeps (k a)) -> keeps (bind m k).
Proof.
  intros Hm Hk w. unfold bind.
  specialize (Hm w). destruct (m w) as [[a|code|e] w']; simpl in *; auto.
  eapply R_trans; [exact Hm | apply Hk].
Qed.

Lemma keeps_for_each {A} (l : list A) (body : A -> M unit) :
  (forall x, In x l -> keeps (body x)) -> keeps (for_each l body).
Proof.
  induction l as [|x l IH]; intros H; simpl.
  - apply keeps_ret.
  - apply keeps_bind; [apply H; now left|].
    intros _. apply IH. intros y Hy. apply H. now right.
Qed.

Lemma keeps_sleep (seconds : Z) : keeps (sleep seconds).
Proof. apply keeps_modify. intros w. apply R_slept. Qed.

Lemma keeps_make_https_request (url : string) (download : bool) :
  allowed url -> keeps (make_https_request requests_get url download).
Proof. intros H w. apply R_request, H. Qed.

Lemma keeps_json_loads (x : option string) : keeps (json_loads json_decode x).
Proof.
  destruct x as [s|]; simpl; [|apply keeps_raise].
  destruct (json_decode s); [apply keeps_ret | apply keeps_raise].
Qed.

Lemma keeps_query_zone (zone : string) :
  allowed (zone_url zone) -> keeps (query_zone requests_get json_decode zone).
Proof.
  intros H. unfold query_zone.
  apply keeps_bind; [now apply keeps_make_https_request|]. intros r.
  apply keeps_bind; [apply keeps_json_loads|]. intros j.
  destruct (is_None j); [|apply keeps_ret].
  apply keeps_bind; [apply keeps_sleep|]. intros _.
  apply keeps_bind; [now apply keeps_make_https_request|]. intros r'.
  apply keeps_bind; [apply keeps_json_loads|]. intros j'.
  destruct (is_None j'); [apply keeps_exit | apply keeps_ret].
Qed.

Lemma keeps_zone_loop (zones : list string) (vars : option (list string * list Z)) :
  (forall z, In z zones -> allowed (zone_url z)) ->
  keeps (zone_loop requests_get json_decode zones vars).
Proof.
  revert vars. induction zones as [|zone rest IH]; intros vars H; simpl.
  - apply keeps_ret.
  - apply keeps_bind; [apply keeps_sleep|]. intros _.
    apply keeps_bind; [apply keeps_query_zone, H; now left|]. intros j.
    destruct j; try apply keeps_raise.
    apply IH. intros z Hz. apply H. now right.
Qed.

Lemma keeps_add_new_domain_names (hostnames zones : list string) :
  keeps (add_new_domain_names fetch_DNS_records datetime_now hostnames zones).
Proof.
  intros w. rewrite add_new_domain_names_run. apply R_dns.
Qed.

Lemma keeps_check_save_location (save_location : string) :
  keeps (check_save_location save_location).
Proof.
  unfold check_save_location.
  destruct (String.eqb save_location ""); [apply keeps_raise|].
  apply keeps_modify. intros w. apply R_dirs.
Qed.

Lemma keeps_harvest (zones : list string) (args : arguments) :
  (forall z, In z zones -> allowed (zone_url z)) ->
  keeps (harvest requests_get json_decode fetch_DNS_records datetime_now
                 zones args).
Proof.
  intros H. unfold harvest.
  apply keeps_bind; [apply keeps_modify; intros w; apply R_jobs|]. intros _.
  apply keeps_bind.
  { destruct (download_methods args) as [[|]|];
      [apply keeps_check_save_location | apply keeps_ret | apply keeps_ret]. }
  intros _.
  apply keeps_bind; [now apply keeps_zone_loop|]. intros vars.
  apply keeps_bind; [|intros _; apply keeps_ret].
  destruct (fetch_dns_records args); [|apply keeps_ret].
  apply keeps_bind; [apply keeps_local|]. intros names_ids.
  apply keeps_add_new_domain_names.
Qed.

(** The certificate phase needs [R] to accept a merge and any download. *)
Hypothesis R_merge :
  forall w min_cert_id cert,
    R w (with_ct (merge_certificate min_cert_id cert) w).
Hypothesis allowed_cert_url : forall min_cert_id, allowed (cert_url min_cert_id).

Lemma keeps_download_certificate (min_cert_id : Z) :
  keeps (download_certificate requests_get min_cert_id).
Proof.
  unfold download_certificate.
  apply keeps_bind; [apply keeps_make_https_request, allowed_cert_url|].
  intros [data|]; [apply keeps_ret|].
  apply keeps_bind; [apply keeps_sleep|]. intros _.
  apply keeps_bind; [apply keeps_make_https_request, allowed_cert_url|].
  intros [data|]; [apply keeps_ret | apply keeps_exit].
Qed.

Lemma keeps_ingest (existing_ids : list Z) (save_location : option string)
  (min_cert_id : Z) :
  keeps (ingest requests_get parse_data existing_ids save_location min_cert_id).
Proof.
  unfold ingest.
  destruct (negb (in_ints min_cert_id existing_ids)); [|apply keeps_ret].
  apply keeps_bind; [apply keeps_download_certificate|]. intros c_file.
  apply keeps_bind.
  { destruct save_location; [|apply keeps_ret].
    apply keeps_modify. intros w. apply R_files. }
  intros _. destruct (parse_data c_file "crt_sh"); [|apply keeps_ret].
  apply keeps_modify. intros w. apply R_merge.
Qed.

Lemma keeps_add_new_certificate_values (new_ids : list Z)
  (save_location : option string) :
  keeps (add_new_certificate_values requests_get parse_data new_ids save_location).
Proof.
  unfold add_new_certificate_values.
  apply keeps_bind; [apply keeps_gets|]. intros existing_ids.
  apply keeps_for_each. intros x _. apply keeps_ingest.
Qed.

Hypothesis R_sweep :
  forall w, R w (with_ct (mark_expired datetime_utcnow) w).

Lemma keeps_main (zones : list string) (args : arguments) :
  (forall z, In z zones -> allowed (zone_url z)) ->
  keeps (main requests_get json_decode parse_data fetch_DNS_records
              datetime_now datetime_utcnow zones args).
Proof.
  intros H. unfold main.
  apply keeps_bind; [now apply keeps_harvest|]. intros vars.
  apply keeps_bind.
  { destruct (download_methods args) as [[|]|]; try apply keeps_ret;
      (apply keeps_bind; [apply keeps_local|]); intros names_ids;
      apply keeps_add_new_certificate_values. }
  intros _.
  apply keeps_bind; [apply keeps_modify, R_sweep|]. intros _.
  apply keeps_modify. intros w. apply R_jobs.
Qed.

End Frame.

(* ================================================================== *)
(** ** The expiry flag *)

Section Expiry.

Lemma expiry_kept_refl (c : list certificate) : expiry_kept c c.
Proof. intros i d H. exists d. auto. Qed.

Lemma expiry_kept_trans (a b c : list certificate) :
  expiry_kept a b -> expiry_kept b c -> expiry_kept a c.
Proof.
  intros Hab Hbc i d H.
  destruct (Hab i d H) as [d1 [H1 [F1 E1]]].
  destruct (Hbc i d1 H1) as [d2 [H2 [F2 E2]]].
  exists d2. repeat split; auto; congruence.
Qed.

Lemma update_one_nth (p : certificate -> bool) (u : certificate -> certificate)
  (c : list certificate) (i : nat) (d : certificate) :
  nth_error c i = Some d ->
  exists d', nth_error (Mongo.update_one p u c) i = Some d' /\ (d' = d \/ d' = u d).
Proof.
  revert i. induction c as [|x c IH]; intros i H.
  - destruct i; discriminate.
  - simpl. destruct (p x) eqn:E.
    + destruct i as [|i]; simpl in *.
      * injection H as <-. eauto.
      * eauto.
    + destruct i as [|i]; simpl in *.
      * injection H as <-. eauto.
      * apply IH, H.
Qed.

Lemma merge_certificate_kept (min_cert_id : Z) (cert : certificate)
  (c : list certificate) :
  expiry_kept c (merge_certificate min_cert_id cert c).
Proof.
  intros i d H. unfold merge_certificate.
  destruct (negb _).
  - destruct (update_one_nth (has_fingerprint (fingerprint_sha256 cert))
                (fun d => Mongo.addToSet_sources "crt_sh"
                            (Mongo.set_crt_sh_min_id min_cert_id d)) c i d H)
      as [d' [H' [->| ->]]]; eauto.
  - exists d. unfold Mongo.insert_one.
    rewrite nth_error_app1; [auto|].
    apply nth_error_Some. congruence.
Qed.

Lemma mark_expired_nth (now : Z) (c : list certificate) (i : nat) (d : certificate) :
  nth_error c i = Some d ->
  nth_error (mark_expired now c) i
  = Some (if newly_expired now d then Mongo.set_isExpired true d else d).
Proof.
  intros H. unfold mark_expired, Mongo.update_multi.
  rewrite nth_error_map, H. reflexivity.
Qed.

Lemma newly_expired_iff (now : Z) (d : certificate) :
  newly_expired now d = true <-> not_after d < now /\ isExpired d = false.
Proof.
  unfold newly_expired. rewrite andb_true_iff, Z.ltb_lt.
  destruct (isExpired d); simpl; intuition congruence.
Qed.

Lemma mark_expired_kept (now : Z) (c : list certificate) :
  expiry_kept c (mark_expired now c).
Proof.
  intros i d H. rewrite (mark_expired_nth now c i d H).
  eexists. split; [reflexivity|].
  destruct (newly_expired now d); simpl; auto.
Qed.

Variable requests_get : nat -> string -> get_outcome.
Variable json_decode : string -> option json_value.
Variable parse_data : string -> string -> option certificate.
Variable fetch_DNS_records : string -> list dns_result.
Variable datetime_now datetime_utcnow : Z.

Let R (w w' : world) : Prop := expiry_kept (ct_collection w) (ct_collection w').

(** Along a whole run, however it ends, and along the certificate step
    alone, a document that was expired keeps its place and stays expired.
    The sweep, as a function of the time and the collection, keeps the
    length, turns the flag on for exactly the documents whose [not_after] is
    strictly before the time and whose flag is off, and leaves every other
    document as it was. *)
Lemma expiry_kept_along_runs
  (zones : list string) (args : arguments)
  (new_ids : list Z) (save_location : option string) (w : world) :
  expiry_kept (ct_collection w)
    (ct_collection (snd (main requests_get json_decode parse_data
                           fetch_DNS_records datetime_now datetime_utcnow
                           zones args w))) /\
  expiry_kept (ct_collection w)
    (ct_collection (snd (add_new_certificate_values requests_get parse_data
                           new_ids save_location w))) /\
  (forall now c, length (mark_expired now c) = length c) /\
  (forall now c i d, nth_error c i = Some d ->
     exists d', nth_error (mark_expired now c) i = Some d' /\
       (not_after d < now /\ isExpired d = false ->
          d' = Mongo.set_isExpired true d /\ isExpired d' = true) /\
       (~ (not_after d < now /\ isExpired d = false) -> d' = d)).
Proof.
  split; [|split; [|split]].
  - apply (keeps_main requests_get json_decode parse_data fetch_DNS_records
             datetime_now datetime_utcnow R (fun _ => True));
      unfold R; simpl; intros;
      eauto using expiry_kept_refl, expiry_kept_trans,
                  merge_certificate_kept, mark_expired_kept.
  - apply (keeps_add_new_certificate_values requests_get parse_data
             R (fun _ => True));
      unfold R; simpl; intros;
      eauto using expiry_kept_refl, expiry_kept_trans, merge_certificate_kept.
  - intros now c. unfold mark_expired, Mongo.update_multi. apply length_map.
  - intros now c i d H. rewrite (mark_expired_nth now c i d H).
    eexists. split; [reflexivity|].
    destruct (newly_expired now d) eqn:E.
    + split; [auto|]. intros Hn. apply newly_expired_iff in E. contradiction.
    + split; [|auto]. intros Hy. apply newly_expired_iff in Hy. congruence.
Qed.

End Expiry.


(* ================================================================== *)
(** ** Runs that download nothing *)

Section NoDownload.

Variable requests_get : nat -> string -> get_outcome.
Variable json_decode : string -> option json_value.
Variable parse_data : string -> string -> option certificate.
Variable fetch_DNS_records : string -> list dns_result.
Variable datetime_now datetime_utcnow : Z.

Lemma zone_url_not_cert_url (zone : string) (min_cert_id : Z) :
  zone_url zone <> cert_url min_cert_id.
Proof. unfold zone_url, cert_url. simpl. discriminate. Qed.

Lemma only_zone_queries_refl (zones : list string) (w : world) :
  only_zone_queries zones w w.
Proof.
  repeat split. exists []. split; [now rewrite app_nil_r | constructor].
Qed.

Lemma only_zone_queries_trans (zones : list string) (a b c : world) :
  only_zone_queries zones a b -> only_zone_queries zones b c ->
  only_zone_queries zones a c.
Proof.
  intros [C1 [F1 [l1 [Q1 A1]]]] [C2 [F2 [l2 [Q2 A2]]]].
  repeat split; try congruence.
  exists (l1 ++ l2). split.
  - rewrite Q2, Q1. now rewrite app_assoc.
  - apply Forall_app. auto.
Qed.

Lemma only_zone_queries_same (zones : list string) (w w' : world) :
  ct_collection w' = ct_collection w ->
  files_written w' = files_written w ->
  requests_made w' = requests_made w ->
  only_zone_queries zones w w'.
Proof.
  intros Hc Hf Hr. repeat split; auto.
  exists []. split; [now rewrite app_nil_r | constructor].
Qed.

Lemma harvest_only_zone_queries (zones : list string) (args : arguments) (w : world) :
  only_zone_queries zones w
    (snd (harvest requests_get json_decode fetch_DNS_records datetime_now
                  zones args w)).
Proof.
  apply (keeps_harvest requests_get json_decode fetch_DNS_records datetime_now
           (only_zone_queries zones)
           (fun url => exists z, In z zones /\ url = zone_url z));
    try (intros; apply only_zone_queries_same; reflexivity).
  - apply only_zone_queries_trans.
  - intros w0 url Hurl. repeat split. exists [url]. split; [reflexivity|].
    constructor; [exact Hurl | constructor].
  - intros z Hz. cbv beta. exists z. auto.
Qed.

(** C10.  When [--download_methods] is absent, a run asks crt.sh about
    tracked zones only, never for a certificate, and writes no file; the
    certificate collection it leaves is the initial one after the expiry
    sweep when the run completes, and the initial one untouched when the run
    stops early. *)
Theorem no_download_method_no_ingestion
  (zones : list string) (args : arguments) (w : world) :
  download_methods args = None ->
  let run := main requests_get json_decode parse_data fetch_DNS_records
                  datetime_now datetime_utcnow zones args w in
  (exists added,
     requests_made (snd run) = requests_made w ++ added /\
     forall url, In url added ->
       (exists z, In z zones /\ url = zone_url z) /\
       (forall min_cert_id, url <> cert_url min_cert_id)) /\
  files_written (snd run) = files_written w /\
  (fst run = Ok tt ->
     ct_collection (snd run) = mark_expired datetime_utcnow (ct_collection w)) /\
  (fst run <> Ok tt -> ct_collection (snd run) = ct_collection w).
Proof.
  intros Hnone run.
  pose proof (harvest_only_zone_queries zones args w) as Hh.
  assert (Hrun : run =
    match harvest requests_get json_decode fetch_DNS_records datetime_now
                  zones args w with
    | (Ok _, w1) =>
        (Ok tt, with_jobs (fun l => l ++ [JobComplete])
                  (with_ct (mark_expired datetime_utcnow) w1))
    | (Exit code, w1) => (Exit code, w1)
    | (Raise e, w1) => (Raise e, w1)
    end).
  { unfold run, main. rewrite Hnone. unfold bind.
    destruct (harvest requests_get json_decode fetch_DNS_records datetime_now
                      zones args w) as [[vars|code|e] w1]; reflexivity. }
  clearbody run. subst run.
  destruct (harvest requests_get json_decode fetch_DNS_records datetime_now
                    zones args w) as [[vars|code|e] w1];
    simpl in Hh; destruct Hh as [Hct [Hfiles [added [Hreq Hall]]]];
    cbn [fst snd with_ct with_jobs ct_collection requests_made files_written].
  all: split; [exists added; split; [exact Hreq|];
               intros url Hin; rewrite Forall_forall in Hall;
               destruct (Hall url Hin) as [z [Hz ->]];
               split; [eauto | intros i; apply zone_url_not_cert_url] |].
  all: split; [exact Hfiles|].
  - split; [intros _; now rewrite Hct | intros Hne; now elim Hne].
  - split; [discriminate | intros _; exact Hct].
  - split; [discriminate | intros _; exact Hct].
Qed.

End NoDownload.


(* ================================================================== *)
(** ** The known-identifier filter *)

Section Dedup.

Variable requests_get : nat -> string -> get_outcome.
Variable parse_data : string -> string -> option certificate.

Lemma for_each_cons {A} (x : A) (l : list A) (body : A -> M unit) (w : world) :
  for_each (x :: l) body w
  = match body x w with
    | (Ok _, w1) => for_each l body w1
    | (Exit code, w1) => (Exit code, w1)
    | (Raise e, w1) => (Raise e, w1)
    end.
Proof. reflexivity. Qed.

Lemma cert_url_inj (a b : Z) : cert_url a = cert_url b -> a = b.
Proof. unfold cert_url. intros H. apply append_inj_r in H. now apply str_inj. Qed.

(** The identifiers the function returns are those some document carries. *)
Lemma existing_ids_fold (l : list certificate) (acc : list Z) (x : Z) :
  In x (fold_left
          (fun existing_ids result =>
             match crt_sh_min_id result with
             | Some i => if in_ints i existing_ids then existing_ids
                         else existing_ids ++ [i]
             | None => existing_ids
             end) l acc)
  <-> In x acc \/ exists d, In d l /\ crt_sh_min_id d = Some x.
Proof.
  revert acc. induction l as [|d l IH]; intros acc; simpl.
  - split; [auto | intros [H|[d [[] _]]]; exact H].
  - rewrite IH. destruct (crt_sh_min_id d) as [i|] eqn:E.
    + destruct (in_ints i acc) eqn:Ei.
      * apply in_ints_iff in Ei. split.
        -- intros [H|[d' [H1 H2]]]; eauto.
        -- intros [H|[d' [[<-|H1] H2]]]; eauto.
           left. congruence.
      * split.
        -- intros [H|[d' [H1 H2]]]; eauto.
           apply in_app_or in H. destruct H as [H|[<-|[]]]; eauto.
        -- intros [H|[d' [[<-|H1] H2]]]; eauto.
           ++ left. apply in_or_app. auto.
           ++ left. apply in_or_app. right. left. congruence.
    + split.
      * intros [H|[d' [H1 H2]]]; eauto.
      * intros [H|[d' [[<-|H1] H2]]]; eauto. congruence.
Qed.

Lemma existing_ids_iff (c : list certificate) (x : Z) :
  In x (get_list_of_existing_certificates c)
  <-> exists d, In d c /\ crt_sh_min_id d = Some x.
Proof.
  unfold get_list_of_existing_certificates, Mongo.find.
  rewrite existing_ids_fold. split.
  - intros [[]|[d [H1 H2]]]. apply filter_In in H1. exists d. tauto.
  - intros [d [H1 H2]]. right. exists d. split; [|exact H2].
    apply filter_In. split; [exact H1|].
    unfold has_crt_sh_min_id. now rewrite H2.
Qed.

Lemma download_certificate_requests (min_cert_id : Z) (w : world) :
  exists added,
    requests_made (snd (download_certificate requests_get min_cert_id w))
    = requests_made w ++ added /\
    (added = [cert_url min_cert_id]
     \/ added = [cert_url min_cert_id; cert_url min_cert_id]).
Proof.
  unfold download_certificate, make_https_request, bind at 1.
  destruct (fetch_outcome requests_get (length (requests_made w))
              (cert_url min_cert_id) true) as [[data|]|code|e];
    try (exists [cert_url min_cert_id]; split; [reflexivity | now left]).
  exists [cert_url min_cert_id; cert_url min_cert_id]. split; [|now right].
  unfold sleep, modify, bind. cbn [with_slept with_requests requests_made].
  destruct (fetch_outcome requests_get _ (cert_url min_cert_id) true)
    as [[data|]|code|e]; simpl; now rewrite <- app_assoc.
Qed.

Lemma ingest_requests (existing_ids : list Z) (save_location : option string)
  (min_cert_id : Z) (w : world) :
  requests_made
    (snd (ingest requests_get parse_data existing_ids save_location min_cert_id w))
  = if in_ints min_cert_id existing_ids then requests_made w
    else requests_made (snd (download_certificate requests_get min_cert_id w)).
Proof.
  unfold ingest. destruct (in_ints min_cert_id existing_ids); [reflexivity|].
  cbn [negb]. unfold bind at 1.
  destruct (download_certificate requests_get min_cert_id w)
    as [[c_file|code|e] w1]; try reflexivity.
  unfold bind, modify, ret.
  destruct save_location; destruct (parse_data c_file "crt_sh"); reflexivity.
Qed.

Lemma ingest_loop_requests (existing_ids : list Z) (save_location : option string)
  (new_ids : list Z) (w : world) :
  let run := for_each new_ids
               (ingest requests_get parse_data existing_ids save_location) w in
  exists added,
    requests_made (snd run) = requests_made w ++ added /\
    (forall url, In url added ->
       exists i, In i new_ids /\ ~ In i existing_ids /\ url = cert_url i) /\
    (fst run = Ok tt ->
       forall i, In i new_ids -> ~ In i existing_ids -> In (cert_url i) added).
Proof.
  revert w. induction new_ids as [|x l IH]; intros w; cbv zeta.
  - exists []. simpl. rewrite app_nil_r. repeat split; [intros ? [] | intros _ ? []].
  - rewrite for_each_cons.
    pose proof (ingest_requests existing_ids save_location x w) as Hx.
    destruct (ingest requests_get parse_data existing_ids save_location x w)
      as [r w1] eqn:Ex.
    cbn [snd] in Hx.
    assert (Hfirst : exists a1,
               requests_made w1 = requests_made w ++ a1 /\
               (in_ints x existing_ids = true -> a1 = []) /\
               (in_ints x existing_ids = false -> In (cert_url x) a1 /\
                  forall url, In url a1 -> url = cert_url x)).
    { destruct (in_ints x existing_ids) eqn:Ei.
      - exists []. rewrite app_nil_r. repeat split; auto; discriminate.
      - destruct (download_certificate_requests x w) as [a1 [Ha1 Hshape]].
        exists a1. split; [congruence|]. split; [discriminate|]. intros _.
        destruct Hshape as [-> | ->]; simpl; intuition. }
    destruct Hfirst as [a1 [Ha1 [Hin Hout]]].
    assert (Hsound1 : forall url, In url a1 ->
              exists i, In i (x :: l) /\ ~ In i existing_ids /\ url = cert_url i).
    { intros url Hurl. destruct (in_ints x existing_ids) eqn:Ei.
      - rewrite Hin in Hurl by reflexivity. destruct Hurl.
      - exists x. apply in_ints_false in Ei.
        destruct (Hout eq_refl) as [_ Hall]. simpl. auto. }
    destruct r as [[]|code|e]; cbn [fst snd].
    + destruct (IH w1) as [a2 [Ha2 [Hs2 Hc2]]]. cbv zeta in *.
      exists (a1 ++ a2). split; [rewrite Ha2, Ha1; now rewrite app_assoc|].
      split.
      * intros url Hurl. apply in_app_or in Hurl. destruct Hurl as [H|H]; auto.
        destruct (Hs2 url H) as [i [Hi [Hn ->]]]. exists i. simpl. auto.
      * intros Hok i [<-|Hi] Hn; apply in_or_app.
        -- left. apply in_ints_false in Hn. now apply Hout.
        -- right. now apply Hc2.
    + exists a1. repeat split; auto. discriminate.
    + exists a1. repeat split; auto. discriminate.
Qed.

(** C5.  An identifier that some stored document already carries as its
    [crt_sh_min_id] when the certificate step starts is never requested from
    crt.sh.  The set of known identifiers is the one read at the start: the
    step requests only identifiers of its input that were unknown then, and
    when it completes it has requested every one of them. *)
Theorem known_identifier_never_fetched
  (new_ids : list Z) (save_location : option string) (w : world) (known : Z) :
  (exists d, In d (ct_collection w) /\ crt_sh_min_id d = Some known) ->
  let run := add_new_certificate_values requests_get parse_data
               new_ids save_location w in
  let snapshot := get_list_of_existing_certificates (ct_collection w) in
  exists added,
    requests_made (snd run) = requests_made w ++ added /\
    ~ In (cert_url known) added /\
    (forall url, In url added ->
       exists i, In i new_ids /\ ~ In i snapshot /\ url = cert_url i) /\
    (fst run = Ok tt ->
       forall i, In i new_ids -> ~ In i snapshot -> In (cert_url i) added).
Proof.
  intros Hknown. apply existing_ids_iff in Hknown. cbv zeta.
  unfold add_new_certificate_values, gets, bind at 1 2.
  destruct (ingest_loop_requests (get_list_of_existing_certificates (ct_collection w))
              save_location new_ids w) as [added [Hreq [Hsound Hcomplete]]].
  cbv zeta in *. exists added.
  split; [exact Hreq|]. split; [|split; assumption].
  intros Hin. destruct (Hsound _ Hin) as [i [_ [Hn Heq]]].
  apply cert_url_inj in Heq. subst. contradiction.
Qed.

End Dedup.


(* ================================================================== *)
(** ** Giving up after two failed downloads *)

Section GivingUp.

Variable requests_get : nat -> string -> get_outcome.
Variable json_decode : string -> option json_value.
Variable parse_data : string -> string -> option certificate.
Variable fetch_DNS_records : string -> list dns_result.
Variable datetime_now datetime_utcnow : Z.

Lemma for_each_app {A} (a b : list A) (body : A -> M unit) (w : world) :
  for_each (a ++ b) body w
  = match for_each a body w with
    | (Ok _, w1) => for_each b body w1
    | (Exit code, w1) => (Exit code, w1)
    | (Raise e, w1) => (Raise e, w1)
    end.
Proof.
  revert w. induction a as [|x a IH]; intros w.
  - reflexivity.
  - simpl app. rewrite !for_each_cons.
    destruct (body x w) as [[[]|code|e] w1]; auto.
Qed.

Lemma length_requests_after (url : string) (w : world) :
  length (requests_made (with_requests (fun l => l ++ [url]) w))
  = S (length (requests_made w)).
Proof. simpl. rewrite length_app. simpl. lia. Qed.

(** Two failures in a row: the download leaves through [exit(1)]. *)
Lemma download_certificate_gives_up (min_cert_id : Z) (w : world) :
  fetch_outcome requests_get (length (requests_made w))
                (cert_url min_cert_id) true = Ok None ->
  fetch_outcome requests_get (S (length (requests_made w)))
                (cert_url min_cert_id) true = Ok None ->
  exists w',
    download_certificate requests_get min_cert_id w = (Exit 1, w') /\
    ct_collection w' = ct_collection w /\
    dns_inserted w' = dns_inserted w /\
    files_written w' = files_written w.
Proof.
  intros H1 H2. unfold download_certificate, make_https_request, bind at 1.
  rewrite H1. unfold sleep, modify, bind.
  cbn [with_slept with_requests requests_made].
  rewrite length_app. simpl length. rewrite Nat.add_1_r, H2.
  eexists. split; [reflexivity|]. auto.
Qed.

Lemma ingest_gives_up (existing_ids : list Z) (save_location : option string)
  (min_cert_id : Z) (w : world) :
  ~ In min_cert_id existing_ids ->
  fetch_outcome requests_get (length (requests_made w))
                (cert_url min_cert_id) true = Ok None ->
  fetch_outcome requests_get (S (length (requests_made w)))
                (cert_url min_cert_id) true = Ok None ->
  exists w',
    ingest requests_get parse_data existing_ids save_location min_cert_id w
    = (Exit 1, w') /\
    ct_collection w' = ct_collection w /\
    dns_inserted w' = dns_inserted w /\
    files_written w' = files_written w.
Proof.
  intros Hnew H1 H2. apply in_ints_false in Hnew.
  destruct (download_certificate_gives_up min_cert_id w H1 H2)
    as [w' [Hrun Hsame]].
  exists w'. split; [|exact Hsame].
  unfold ingest. rewrite Hnew. cbn [negb]. unfold bind at 1. now rewrite Hrun.
Qed.

(** The certificate step on a list whose identifier [min_cert_id], reached
    after [before] went through, cannot be downloaded. *)
Lemma add_new_certificate_values_gives_up
  (before after : list Z) (min_cert_id : Z) (save_location : option string)
  (w w1 : world) :
  let existing_ids := get_list_of_existing_certificates (ct_collection w) in
  for_each before (ingest requests_get parse_data existing_ids save_location) w
  = (Ok tt, w1) ->
  ~ In min_cert_id existing_ids ->
  fetch_outcome requests_get (length (requests_made w1))
                (cert_url min_cert_id) true = Ok None ->
  fetch_outcome requests_get (S (length (requests_made w1)))
                (cert_url min_cert_id) true = Ok None ->
  exists w',
    add_new_certificate_values requests_get parse_data
      (before ++ min_cert_id :: after) save_location w = (Exit 1, w') /\
    ct_collection w' = ct_collection w1 /\
    dns_inserted w' = dns_inserted w1 /\
    files_written w' = files_written w1.
Proof.
  intros existing_ids Hbefore Hnew H1 H2.
  destruct (ingest_gives_up existing_ids save_location min_cert_id w1 Hnew H1 H2)
    as [w' [Hrun Hsame]].
  exists w'. split; [|exact Hsame].
  unfold add_new_certificate_values, gets, bind at 1.
  fold existing_ids. rewrite for_each_app, Hbefore, for_each_cons, Hrun.
  reflexivity.
Qed.

(** C8.  A run that reaches the certificate step with the identifiers
    [before ++ min_cert_id :: after], gets through [before], and then fails
    twice in a row to download [min_cert_id], ends with exit code 1; the
    certificate collection, the DNS rows and the files it leaves are those
    that stood when [before] was done: nothing is rolled back and the sweep
    does not run. *)
Theorem double_download_failure_exits_1
  (zones : list string) (args : arguments) (method : download_method)
  (new_names : list string) (before after : list Z) (min_cert_id : Z)
  (w0 w w1 : world) :
  download_methods args = Some method ->
  harvest requests_get json_decode fetch_DNS_records datetime_now zones args w0
  = (Ok (Some (new_names, before ++ min_cert_id :: after)), w) ->
  let save_location :=
    match method with
    | dbAndSave => Some (save_location_of args)
    | dbOnly => None
    end in
  let existing_ids := get_list_of_existing_certificates (ct_collection w) in
  for_each before (ingest requests_get parse_data existing_ids save_location) w
  = (Ok tt, w1) ->
  ~ In min_cert_id existing_ids ->
  fetch_outcome requests_get (length (requests_made w1))
                (cert_url min_cert_id) true = Ok None ->
  fetch_outcome requests_get (S (length (requests_made w1)))
                (cert_url min_cert_id) true = Ok None ->
  let run := main requests_get json_decode parse_data fetch_DNS_records
                  datetime_now datetime_utcnow zones args w0 in
  fst run = Exit 1 /\
  exit_status (fst run) = 1 /\
  ct_collection (snd run) = ct_collection w1 /\
  dns_inserted (snd run) = dns_inserted w1 /\
  files_written (snd run) = files_written w1.
Proof.
  intros Hmethod Hharvest save_location existing_ids Hbefore Hnew H1 H2 run.
  destruct (add_new_certificate_values_gives_up before after min_cert_id
              save_location w w1 Hbefore Hnew H1 H2) as [w' [Hrun Hsame]].
  assert (Hmain : run = (Exit 1, w')).
  { unfold run, main. unfold bind at 1. rewrite Hharvest, Hmethod.
    unfold bind at 1.
    destruct method; unfold bind at 1, local, ret; cbn [snd];
      unfold save_location in Hrun; now rewrite Hrun. }
  rewrite Hmain. simpl. tauto.
Qed.

End GivingUp.


(* ================================================================== *)
(** ** One document per fingerprint *)

Section Merge.

Lemma link_fingerprint (i : Z) (d : certificate) :
  fingerprint_sha256 (link i d) = fingerprint_sha256 d.
Proof. reflexivity. Qed.

Lemma link_crt_sh_min_id (i : Z) (d : certificate) :
  crt_sh_min_id (link i d) = Some i.
Proof. reflexivity. Qed.

Lemma link_tag_count (i : Z) (d : certificate) :
  (tag_count d <= 1)%nat -> tag_count (link i d) = 1%nat.
Proof.
  unfold tag_count, link. simpl. intros Hle.
  destruct (in_strs "crt_sh" (sources d)) eqn:E.
  - apply in_strs_iff in E.
    apply (count_occ_In string_dec) in E. lia.
  - apply in_strs_false in E.
    apply (count_occ_not_In string_dec) in E.
    rewrite count_occ_app, E. simpl.
    destruct (string_dec "crt_sh" "crt_sh"); [reflexivity | contradiction].
Qed.

Lemma update_one_count (p : certificate -> bool) (u : certificate -> certificate)
  (c : list certificate) :
  (forall d, p (u d) = p d) ->
  length (filter p (Mongo.update_one p u c)) = length (filter p c).
Proof.
  intros Hu. induction c as [|x c IH]; [reflexivity|]. simpl.
  destruct (p x) eqn:E; simpl.
  - now rewrite Hu, E.
  - now rewrite E, IH.
Qed.

Lemma update_one_In (p : certificate -> bool) (u : certificate -> certificate)
  (c : list certificate) (d' : certificate) :
  In d' (Mongo.update_one p u c) ->
  In d' c \/ exists d, In d c /\ p d = true /\ d' = u d.
Proof.
  induction c as [|x c IH]; simpl; [tauto|].
  destruct (p x) eqn:E; simpl.
  - intros [<-|H]; [right; exists x | left]; auto.
  - intros [<-|H]; auto.
    destruct (IH H) as [H'|[d [H1 H2]]]; [left | right; exists d]; auto.
Qed.

(** With at most one match, every match of the result is an updated one. *)
Lemma update_one_unique (p : certificate -> bool) (u : certificate -> certificate)
  (c : list certificate) (d' : certificate) :
  (length (filter p c) <= 1)%nat ->
  In d' (Mongo.update_one p u c) -> p d' = true ->
  exists d, In d c /\ p d = true /\ d' = u d.
Proof.
  induction c as [|x c IH]; simpl; [tauto|].
  destruct (p x) eqn:E; simpl.
  - intros Hle [<-|Hin] Hp; [exists x; auto|].
    assert (Hnil : filter p c = []) by (apply length_zero_iff_nil; lia).
    assert (Hf : In d' (filter p c)) by (apply filter_In; auto).
    rewrite Hnil in Hf. destruct Hf.
  - intros Hle [<-|Hin] Hp; [congruence|].
    destruct (IH Hle Hin Hp) as [d [H1 H2]]. exists d. auto.
Qed.

Lemma has_fingerprint_iff (fp : string) (d : certificate) :
  has_fingerprint fp d = true <-> fingerprint_sha256 d = fp.
Proof. apply String.eqb_eq. Qed.

Lemma merge_certificate_In (i : Z) (cert : certificate) (c : list certificate)
  (d' : certificate) :
  In d' (merge_certificate i cert c) ->
  In d' c \/ crt_sh_min_id d' = Some i.
Proof.
  unfold merge_certificate. destruct (negb _).
  - intros H. apply update_one_In in H.
    destruct H as [H|[d [_ [_ ->]]]]; auto.
  - unfold Mongo.insert_one. intros H. apply in_app_or in H.
    destruct H as [H|[<-|[]]]; auto.
Qed.

(** First merge: from a collection with at most one document of that
    fingerprint to a collection with exactly one. *)
Lemma merge_certificate_one (i : Z) (cert : certificate) (c : list certificate) :
  let fp := fingerprint_sha256 cert in
  (count_fingerprint fp c <= 1)%nat ->
  (forall d, In d c -> fingerprint_sha256 d = fp -> (tag_count d <= 1)%nat) ->
  (tag_count cert <= 1)%nat ->
  count_fingerprint fp (merge_certificate i cert c) = 1%nat /\
  (forall d, In d (merge_certificate i cert c) -> fingerprint_sha256 d = fp ->
             (tag_count d <= 1)%nat).
Proof.
  intros fp Hcount Htags Hcert. unfold merge_certificate. fold fp.
  unfold count_fingerprint, Mongo.count, Mongo.find in *.
  destruct (length (filter (has_fingerprint fp) c) =? 0)%nat eqn:E; cbn [negb].
  - apply Nat.eqb_eq in E. unfold Mongo.insert_one. split.
    + rewrite filter_app, length_app, E. simpl.
      unfold has_fingerprint at 1. simpl. fold fp. now rewrite String.eqb_refl.
    + intros d Hin Hfp. apply in_app_or in Hin.
      destruct Hin as [Hin|[<-|[]]]; [now apply Htags | exact Hcert].
  - apply Nat.eqb_neq in E. split.
    + rewrite update_one_count by reflexivity. lia.
    + intros d Hin Hfp.
      apply update_one_unique in Hin; [|exact Hcount|now apply has_fingerprint_iff].
      destruct Hin as [d0 [Hd0 [Hp ->]]].
      fold (link i d0). rewrite link_tag_count; [lia|].
      apply Htags; [exact Hd0 | now apply has_fingerprint_iff].
Qed.

(** Second merge: the document is there, it is linked and tagged. *)
Lemma merge_certificate_again (i : Z) (cert : certificate) (c : list certificate) :
  let fp := fingerprint_sha256 cert in
  count_fingerprint fp c = 1%nat ->
  (forall d, In d c -> fingerprint_sha256 d = fp -> (tag_count d <= 1)%nat) ->
  count_fingerprint fp (merge_certificate i cert c) = 1%nat /\
  (forall d, In d (merge_certificate i cert c) -> fingerprint_sha256 d = fp ->
             tag_count d = 1%nat /\ crt_sh_min_id d = Some i).
Proof.
  intros fp Hcount Htags. unfold merge_certificate. fold fp.
  unfold count_fingerprint, Mongo.count, Mongo.find in *.
  rewrite Hcount. cbn [Nat.eqb negb]. split.
  - now rewrite update_one_count by reflexivity.
  - intros d Hin Hfp.
    apply update_one_unique in Hin; [|lia|now apply has_fingerprint_iff].
    destruct Hin as [d0 [Hd0 [Hp ->]]].
    fold (link i d0). split; [|reflexivity].
    apply link_tag_count, Htags; [exact Hd0 | now apply has_fingerprint_iff].
Qed.

Variable requests_get : nat -> string -> get_outcome.
Variable parse_data : string -> string -> option certificate.

(** An unknown identifier whose download and parse succeed is merged. *)
Lemma ingest_merges (existing_ids : list Z) (save_location : option string)
  (min_cert_id : Z) (c_file : string) (cert : certificate) (w : world) :
  ~ In min_cert_id existing_ids ->
  fetch_outcome requests_get (length (requests_made w))
                (cert_url min_cert_id) true = Ok (Some c_file) ->
  parse_data c_file "crt_sh" = Some cert ->
  exists w',
    ingest requests_get parse_data existing_ids save_location min_cert_id w
    = (Ok tt, w') /\
    ct_collection w' = merge_certificate min_cert_id cert (ct_collection w).
Proof.
  intros Hnew Hfetch Hparse. apply in_ints_false in Hnew.
  unfold ingest. rewrite Hnew. cbn [negb].
  unfold download_certificate, make_https_request, bind at 1 2.
  rewrite Hfetch. unfold ret at 1. unfold bind at 1.
  destruct save_location as [dir|]; unfold modify at 1, ret at 1;
    rewrite Hparse; unfold modify; eexists; split; reflexivity.
Qed.

Lemma merge_twice_stored_once (i1 i2 : Z) (cert : certificate)
  (c : list certificate) :
  let fp := fingerprint_sha256 cert in
  (count_fingerprint fp c <= 1)%nat ->
  (forall d, In d c -> fingerprint_sha256 d = fp -> (tag_count d <= 1)%nat) ->
  (tag_count cert <= 1)%nat ->
  stored_once fp (merge_certificate i2 cert (merge_certificate i1 cert c)).
Proof.
  intros fp Hcount Htags Hcert.
  destruct (merge_certificate_one i1 cert c Hcount Htags Hcert) as [H1 T1].
  destruct (merge_certificate_again i2 cert _ H1 T1) as [H2 T2].
  split; [exact H2|]. intros d Hin Hfp. now apply T2.
Qed.

(** C1.  Take a collection that holds the fingerprint at most once, with
    the tag [crt_sh] at most once among its sources, and two different
    identifiers unknown to it for which crt.sh serves the same bytes, which
    parse to a certificate of that fingerprint.  Ingesting both, in one call
    or in two successive calls, succeeds and leaves exactly one document with
    that fingerprint, whose sources list the tag [crt_sh] exactly once. *)
Theorem same_bytes_two_identifiers_one_document
  (save_location : option string) (w : world) (id1 id2 : Z)
  (c_file : string) (cert : certificate) :
  let fp := fingerprint_sha256 cert in
  let existing_ids := get_list_of_existing_certificates (ct_collection w) in
  (count_fingerprint fp (ct_collection w) <= 1)%nat ->
  (forall d, In d (ct_collection w) -> fingerprint_sha256 d = fp ->
             (tag_count d <= 1)%nat) ->
  id1 <> id2 -> ~ In id1 existing_ids -> ~ In id2 existing_ids ->
  (forall n, fetch_outcome requests_get n (cert_url id1) true = Ok (Some c_file)) ->
  (forall n, fetch_outcome requests_get n (cert_url id2) true = Ok (Some c_file)) ->
  parse_data c_file "crt_sh" = Some cert ->
  (tag_count cert <= 1)%nat ->
  let one_run :=
    add_new_certificate_values requests_get parse_data [id1; id2] save_location w in
  let first_run :=
    add_new_certificate_values requests_get parse_data [id1] save_location w in
  let second_run :=
    add_new_certificate_values requests_get parse_data [id2] save_location
      (snd first_run) in
  (fst one_run = Ok tt /\ stored_once fp (ct_collection (snd one_run))) /\
  (fst first_run = Ok tt /\ fst second_run = Ok tt /\
   stored_once fp (ct_collection (snd second_run))).
Proof.
  intros fp existing_ids Hcount Htags Hdiff Hnew1 Hnew2 Hget1 Hget2 Hparse Hcert.
  destruct (ingest_merges existing_ids save_location id1 c_file cert w
              Hnew1 (Hget1 _) Hparse) as [w1 [Hrun1 Hct1]].
  split.
  - destruct (ingest_merges existing_ids save_location id2 c_file cert w1
                Hnew2 (Hget2 _) Hparse) as [w2 [Hrun2 Hct2]].
    cbv zeta. unfold add_new_certificate_values, gets, bind at 1 2.
    fold existing_ids. rewrite for_each_cons, Hrun1. cbv beta iota.
    rewrite for_each_cons, Hrun2. simpl.
    split; [reflexivity|]. rewrite Hct2, Hct1.
    now apply merge_twice_stored_once.
  - assert (Hfirst : add_new_certificate_values requests_get parse_data [id1]
                       save_location w = (Ok tt, w1)).
    { unfold add_new_certificate_values, gets, bind at 1.
      fold existing_ids. now rewrite for_each_cons, Hrun1. }
    cbv zeta. rewrite Hfirst. cbn [fst snd].
    assert (Hnew2' : ~ In id2 (get_list_of_existing_certificates (ct_collection w1))).
    { intros Hin. apply existing_ids_iff in Hin. destruct Hin as [d [Hd Hid]].
      rewrite Hct1 in Hd. apply merge_certificate_In in Hd.
      destruct Hd as [Hd|Hd]; [|congruence].
      apply Hnew2. apply existing_ids_iff. eauto. }
    destruct (ingest_merges _ save_location id2 c_file cert w1
                Hnew2' (Hget2 _) Hparse) as [w2 [Hrun2 Hct2]].
    unfold add_new_certificate_values, gets, bind at 1 2.
    rewrite for_each_cons, Hrun2. simpl.
    split; [reflexivity|]. split; [reflexivity|]. rewrite Hct2, Hct1.
    now apply merge_twice_stored_once.
Qed.

End Merge.

(* ================================================================== *)
(** ** Concrete runs *)

Section Runs.

(** The zone loop starts each iteration from empty lists: what earlier
    zones gave is dropped whatever it was. *)
Lemma zone_loop_forgets (requests_get : nat -> string -> get_outcome)
  (json_decode : string -> option json_value) (zone : string)
  (rest : list string) (vars : option (list string * list Z)) (w : world) :
  zone_loop requests_get json_decode (zone :: rest) vars w
  = zone_loop requests_get json_decode (zone :: rest) None w.
Proof. reflexivity. Qed.

(** C2, at a concrete input.  The collection holds fingerprint [abc] linked
    to identifier 100; identifier 200 serves the same bytes.  After the
    certificate step the document is linked to 200: the field that was set
    has been overwritten. *)
Theorem crt_sh_min_id_overwritten :
  let before := mkCert "abc" (Some 100) 1700000000 false ["crt_sh"%string] [] in
  let run := add_new_certificate_values example_get example_parse [200] None
               (store [before]) in
  fst run = Ok tt /\
  map crt_sh_min_id (ct_collection (store [before])) = [Some 100] /\
  map crt_sh_min_id (ct_collection (snd run)) = [Some 200] /\
  map fingerprint_sha256 (ct_collection (snd run)) = ["abc"%string].
Proof. vm_compute. repeat split. Qed.

(** C3, at a concrete input.  With the zones [a.example] and [b.example]
    tracked, the loop hands on the names and identifiers of [b.example]
    alone; identifier 100 and the name [www.a.example], answered for
    [a.example], are gone. *)
Theorem zone_loop_keeps_last_zone_only :
  let run := zone_loop example_get example_decode
               ["a.example"; "b.example"]%string None empty_world in
  fst run = Ok (Some (["www.b.example"%string], [200])) /\
  fst (zone_loop example_get example_decode ["a.example"%string] None empty_world)
  = Ok (Some (["www.a.example"%string], [100; 300])).
Proof. vm_compute. split; reflexivity. Qed.

(** A zone query whose fetch fails never reaches the retry: the [None] goes
    to [json.loads]. *)
Lemma query_zone_failure_raises (requests_get : nat -> string -> get_outcome)
  (json_decode : string -> option json_value) (zone : string) (w : world) :
  fetch_outcome requests_get (length (requests_made w)) (zone_url zone) false
  = Ok None ->
  query_zone requests_get json_decode zone w
  = (Raise TypeError, with_requests (fun l => l ++ [zone_url zone]) w).
Proof.
  intros H. unfold query_zone, make_https_request, bind at 1. now rewrite H.
Qed.

(** C4, at a concrete input.  With crt.sh out of reach the first failed
    zone query already ends the run: [json.loads] is handed [None] and raises
    [TypeError], so the process ends with status 1 after a single request and
    no retry; the certificate collection and the DNS rows are untouched. *)
Theorem zone_query_failure_raises_TypeError :
  let run := main service_down example_decode example_parse example_dns 0 0
               ["a.example"%string] (example_args true (Some dbOnly))
               empty_world in
  fst run = Raise TypeError /\
  exit_status (fst run) = 1 /\
  requests_made (snd run) = [zone_url "a.example"] /\
  ct_collection (snd run) = [] /\
  dns_inserted (snd run) = [].
Proof. vm_compute. repeat split. Qed.

(** Identifiers 100 and 200 serve the same bytes: one document, one tag. *)
Lemma same_bytes_two_identifiers_witness :
  let one_run := add_new_certificate_values example_get example_parse
                   [100; 200] None empty_world in
  let first_run := add_new_certificate_values example_get example_parse
                     [100] None empty_world in
  let second_run := add_new_certificate_values example_get example_parse
                      [200] None (snd first_run) in
  (fst one_run = Ok tt /\ stored_once "abc" (ct_collection (snd one_run))) /\
  (fst first_run = Ok tt /\ fst second_run = Ok tt /\
   stored_once "abc" (ct_collection (snd second_run))).
Proof.
  apply (same_bytes_two_identifiers_one_document example_get example_parse
           None empty_world 100 200 "CERT-abc" example_cert).
  - vm_compute. lia.
  - intros d [].
  - lia.
  - intros [].
  - intros [].
  - intros n. reflexivity.
  - intros n. reflexivity.
  - reflexivity.
  - vm_compute. lia.
Defined.

(** Identifier 100 is known, 200 is not: only 200 is requested. *)
Lemma known_identifier_witness :
  let w := store [mkCert "abc" (Some 100) 1700000000 false [] []] in
  let run := add_new_certificate_values example_get example_parse
               [100; 200] None w in
  exists added,
    requests_made (snd run) = requests_made w ++ added /\
    ~ In (cert_url 100) added /\
    (forall url, In url added ->
       exists i, In i [100; 200] /\
                 ~ In i (get_list_of_existing_certificates (ct_collection w)) /\
                 url = cert_url i) /\
    (fst run = Ok tt ->
       forall i, In i [100; 200] ->
                 ~ In i (get_list_of_existing_certificates (ct_collection w)) ->
                 In (cert_url i) added).
Proof.
  apply (known_identifier_never_fetched example_get example_parse
           [100; 200] None
           (store [mkCert "abc" (Some 100) 1700000000 false [] []]) 100).
  eexists. split; [left; reflexivity | reflexivity].
Defined.

(** Zone [a.example] names identifiers 100 and 300; 300 cannot be
    downloaded, and the document ingested for 100 stays. *)
Lemma double_download_failure_witness :
  let run := main example_get example_decode example_parse example_dns 0 0
               ["a.example"%string] (example_args false (Some dbOnly))
               empty_world in
  fst run = Exit 1 /\
  exit_status (fst run) = 1 /\
  map crt_sh_min_id (ct_collection (snd run)) = [Some 100].
Proof.
  pose (w := snd (harvest example_get example_decode example_dns 0
                    ["a.example"%string] (example_args false (Some dbOnly))
                    empty_world)).
  pose (w1 := snd (for_each [100]
                     (ingest example_get example_parse
                        (get_list_of_existing_certificates (ct_collection w))
                        None) w)).
  destruct (double_download_failure_exits_1 example_get example_decode
              example_parse example_dns 0 0
              ["a.example"%string] (example_args false (Some dbOnly)) dbOnly
              ["www.a.example"%string] [100] [] 300 empty_world w w1)
    as [Hexit [Hstatus [Hct _]]].
  - reflexivity.
  - vm_compute. reflexivity.
  - vm_compute. reflexivity.
  - vm_compute. intros [].
  - vm_compute. reflexivity.
  - vm_compute. reflexivity.
  - split; [exact Hexit|]. split; [exact Hstatus|].
    rewrite Hct. vm_compute. reflexivity.
Defined.

(** No [--download_methods]: the only request is the zone query. *)
Lemma no_download_method_witness :
  let run := main example_get example_decode example_parse example_dns 0
               1800000000 ["a.example"%string] (example_args true None)
               (store [example_cert]) in
  (exists added,
     requests_made (snd run) = requests_made (store [example_cert]) ++ added /\
     forall url, In url added ->
       (exists z, In z ["a.example"%string] /\ url = zone_url z) /\
       (forall min_cert_id, url <> cert_url min_cert_id)) /\
  files_written (snd run) = files_written (store [example_cert]) /\
  (fst run = Ok tt ->
     ct_collection (snd run)
     = mark_expired 1800000000 (ct_collection (store [example_cert]))) /\
  (fst run <> Ok tt ->
     ct_collection (snd run) = ct_collection (store [example_cert])).
Proof.
  apply (no_download_method_no_ingestion example_get example_decode
           example_parse example_dns 0 1800000000
           ["a.example"%string] (example_args true None) (store [example_cert])).
  reflexivity.
Defined.

End Runs.


(* ================================================================== *)
(** ** The two deduplicating loops *)

Section Deduplication.

Lemma NoDup_snoc {A} (l : list A) (x : A) :
  NoDup l -> ~ In x l -> NoDup (l ++ [x]).
Proof.
  induction l as [|a l IH]; intros Hl Hx; simpl.
  - constructor; [intros [] | constructor].
  - inversion Hl as [|? ? Ha Hl']; subst. constructor.
    + intros Hin. apply in_app_or in Hin. destruct Hin as [Hin|[<-|[]]].
      * contradiction.
      * apply Hx. now left.
    + apply IH; [exact Hl'|]. intros Hin. apply Hx. now right.
Qed.

Lemma existing_ids_fold_NoDup (l : list certificate) (acc : list Z) :
  NoDup acc ->
  NoDup (fold_left
           (fun existing_ids result =>
              match crt_sh_min_id result with
              | Some i => if in_ints i existing_ids then existing_ids
                          else existing_ids ++ [i]
              | None => existing_ids
              end) l acc).
Proof.
  revert acc. induction l as [|d l IH]; intros acc Hacc; simpl; [exact Hacc|].
  apply IH. destruct (crt_sh_min_id d) as [i|]; [|exact Hacc].
  destruct (in_ints i acc) eqn:E; [exact Hacc|].
  apply in_ints_false in E. now apply NoDup_snoc.
Qed.

(** X1.  The list of known identifiers holds every identifier that some
    document of the collection carries, holds nothing else, and holds each
    once, however many documents share it; documents without the field
    contribute nothing. *)
Theorem existing_ids_exact (c : list certificate) :
  NoDup (get_list_of_existing_certificates c) /\
  (forall x, In x (get_list_of_existing_certificates c) <->
             exists d, In d c /\ crt_sh_min_id d = Some x) /\
  ((forall d, In d c -> crt_sh_min_id d = None) ->
   get_list_of_existing_certificates c = []).
Proof.
  split; [|split].
  - unfold get_list_of_existing_certificates.
    apply existing_ids_fold_NoDup. constructor.
  - intros x. apply existing_ids_iff.
  - intros Hnone.
    destruct (get_list_of_existing_certificates c) as [|x l] eqn:E; [reflexivity|].
    assert (Hin : In x (get_list_of_existing_certificates c))
      by (rewrite E; now left).
    apply existing_ids_iff in Hin. destruct Hin as [d [Hd Hx]].
    rewrite (Hnone d Hd) in Hx. discriminate.
Qed.

Lemma contains_char_iff (c : ascii) (s : string) :
  contains_char c s = true <-> In c (list_ascii_of_string s).
Proof.
  induction s as [|a s IH]; simpl.
  - split; [discriminate | tauto].
  - rewrite orb_true_iff, IH, Ascii.eqb_eq. tauto.
Qed.

(** What the inner loop of the zone loop has gathered, from any start. *)
Lemma collect_fold (entries : list ct_log_entry) (names : list string) (ids : list Z) :
  NoDup names -> NoDup ids ->
  let result := fold_left collect_step entries (names, ids) in
  NoDup (fst result) /\ NoDup (snd result) /\
  (forall i, In i (snd result) <->
             In i ids \/ exists e, In e entries /\ min_cert_id e = i) /\
  (forall n, In n (fst result) <->
             In n names \/
             exists e, In e entries /\ name_value e = n /\
                       contains_char "*" n = false).
Proof.
  revert names ids. induction entries as [|e entries IH];
    intros names ids Hn Hi; cbv zeta.
  - simpl. repeat split; auto.
    + intros [H|[e [[] _]]]. exact H.
    + intros [H|[e [[] _]]]. exact H.
  - cbn [fold_left].
    pose (ids' := if negb (in_ints (min_cert_id e) ids)
                  then ids ++ [min_cert_id e] else ids).
    pose (names' := if negb (contains_char "*" (name_value e))
                       && negb (in_strs (name_value e) names)
                    then names ++ [name_value e] else names).
    assert (Hstep : collect_step (names, ids) e = (names', ids')) by reflexivity.
    rewrite Hstep.
    assert (Hi' : NoDup ids').
    { unfold ids'. destruct (in_ints (min_cert_id e) ids) eqn:E; [exact Hi|].
      apply in_ints_false in E. now apply NoDup_snoc. }
    assert (Hn' : NoDup names').
    { unfold names'. destruct (contains_char "*" (name_value e)); [exact Hn|].
      destruct (in_strs (name_value e) names) eqn:E; [exact Hn|].
      apply in_strs_false in E. now apply NoDup_snoc. }
    destruct (IH names' ids' Hn' Hi') as [R1 [R2 [R3 R4]]]. cbv zeta in *.
    split; [exact R1|]. split; [exact R2|]. split.
    + intros i. rewrite R3. unfold ids'.
      destruct (in_ints (min_cert_id e) ids) eqn:E; cbn [negb].
      * apply in_ints_iff in E. split.
        -- intros [H|[x [Hx Hid]]]; [now left | right; exists x; simpl; auto].
        -- intros [H|[x [[<-|Hx] Hid]]]; [now left | left; congruence |
                                           right; exists x; auto].
      * split.
        -- intros [H|[x [Hx Hid]]].
           ++ apply in_app_or in H. destruct H as [H|[<-|[]]]; [now left|].
              right. exists e. simpl. auto.
           ++ right. exists x. simpl. auto.
        -- intros [H|[x [[<-|Hx] Hid]]].
           ++ left. apply in_or_app. now left.
           ++ left. apply in_or_app. right. left. exact Hid.
           ++ right. exists x. auto.
    + intros n. rewrite R4. unfold names'.
      destruct (contains_char "*" (name_value e)) eqn:Es; cbn [negb andb].
      * split.
        -- intros [H|[x [Hx Hv]]]; [now left | right; exists x; simpl; auto].
        -- intros [H|[x [[<-|Hx] [Hv Hs]]]]; [now left | congruence |
                                               right; exists x; auto].
      * destruct (in_strs (name_value e) names) eqn:E; cbn [negb].
        -- apply in_strs_iff in E. split.
           ++ intros [H|[x [Hx Hv]]]; [now left | right; exists x; simpl; auto].
           ++ intros [H|[x [[<-|Hx] [Hv Hs]]]]; [now left | left; congruence |
                                                  right; exists x; auto].
        -- split.
           ++ intros [H|[x [Hx Hv]]].
              ** apply in_app_or in H. destruct H as [H|[<-|[]]]; [now left|].
                 right. exists e. simpl. auto.
              ** right. exists x. simpl. auto.
           ++ intros [H|[x [[<-|Hx] [Hv Hs]]]].
              ** left. apply in_or_app. now left.
              ** left. apply in_or_app. right. left. exact Hv.
              ** right. exists x. auto.
Qed.

(** X2.  From the entries of one answer the loop gathers each identifier
    once and each name once; the identifiers are exactly those of the
    entries, the names exactly the entries' names that hold no [*]; so no
    name handed on contains a star, and an empty answer gives two empty
    lists. *)
Theorem collect_exact (entries : list ct_log_entry) :
  let new_names := fst (collect entries) in
  let new_ids := snd (collect entries) in
  NoDup new_ids /\ NoDup new_names /\
  (forall i, In i new_ids <-> exists e, In e entries /\ min_cert_id e = i) /\
  (forall n, In n new_names <->
             (exists e, In e entries /\ name_value e = n) /\
             ~ In "*"%char (list_ascii_of_string n)) /\
  collect [] = ([], []).
Proof.
  cbv zeta. unfold collect.
  destruct (collect_fold entries [] [] (NoDup_nil _) (NoDup_nil _))
    as [Hn [Hi [Hids Hnames]]]. cbv zeta in *.
  split; [exact Hi|]. split; [exact Hn|]. split; [|split; [|reflexivity]].
  - intros i. rewrite Hids. split; [intros [[]|H]; exact H | auto].
  - intros n. rewrite Hnames. split.
    + intros [[]|[e [He [Hv Hs]]]]. split; [exists e; auto|].
      intros Hin. apply contains_char_iff in Hin. congruence.
    + intros [[e [He Hv]] Hs]. right. exists e. repeat split; auto.
      destruct (contains_char "*" n) eqn:E; [|reflexivity].
      apply contains_char_iff in E. contradiction.
Qed.

End Deduplication.


(* ================================================================== *)
(** ** The sweep and the save location *)

Section SweepAndPaths.

Lemma newly_expired_after (now later : Z) (d : certificate) :
  now <= later ->
  (if newly_expired later
        (if newly_expired now d then Mongo.set_isExpired true d else d)
   then Mongo.set_isExpired true
          (if newly_expired now d then Mongo.set_isExpired true d else d)
   else if newly_expired now d then Mongo.set_isExpired true d else d)
  = if newly_expired later d then Mongo.set_isExpired true d else d.
Proof.
  intros Hle. unfold newly_expired, Mongo.set_isExpired.
  destruct d as [fp crt na ex src other]; simpl.
  destruct (na <? now) eqn:E1; destruct (na <? later) eqn:E2;
    destruct ex; simpl; try rewrite E2; simpl; try reflexivity.
  apply Z.ltb_lt in E1. apply Z.ltb_ge in E2. lia.
Qed.

(** X3.  Sweeping twice at the same time is sweeping once, a sweep
    followed by a later sweep is the later sweep alone, and after a sweep no
    document that ran out before the sweep's time is left unflagged. *)
Theorem mark_expired_composes (now later : Z) (c : list certificate) :
  now <= later ->
  mark_expired now (mark_expired now c) = mark_expired now c /\
  mark_expired later (mark_expired now c) = mark_expired later c /\
  (forall d, In d (mark_expired now c) -> not_after d < now ->
             isExpired d = true).
Proof.
  intros Hle.
  assert (Hcomp : forall t, now <= t ->
            mark_expired t (mark_expired now c) = mark_expired t c).
  { intros t Ht. unfold mark_expired, Mongo.update_multi.
    rewrite map_map. apply map_ext. intros d. now apply newly_expired_after. }
  split; [apply Hcomp; lia|]. split; [now apply Hcomp|].
  intros d Hin Hlt. unfold mark_expired, Mongo.update_multi in Hin.
  apply in_map_iff in Hin. destruct Hin as [d0 [<- _]].
  destruct (newly_expired now d0) eqn:E; [reflexivity|].
  destruct (isExpired d0) eqn:Ex; [reflexivity|].
  assert (newly_expired now d0 = true)
    by (apply newly_expired_iff; auto).
  congruence.
Qed.

Lemma mark_expired_witness :
  mark_expired 1800000000 (mark_expired 1800000000 [example_cert])
  = mark_expired 1800000000 [example_cert] /\
  mark_expired 1900000000 (mark_expired 1800000000 [example_cert])
  = mark_expired 1900000000 [example_cert] /\
  (forall d, In d (mark_expired 1800000000 [example_cert]) ->
             not_after d < 1800000000 ->
             isExpired d = true).
Proof.
  apply (mark_expired_composes 1800000000 1900000000 [example_cert]). lia.
Defined.

Lemma endswith_append (s suffix : string) : endswith (s +++ suffix) suffix = true.
Proof. apply endswith_spec. now exists s. Qed.

(** X4.  The save location the run settles on ends with a slash whenever
    the command line gives a non-empty directory: one is appended unless the
    directory already ends with one.  An empty directory falls back to
    [/mnt/workspace/crt_sh], without a slash. *)
Theorem save_location_trailing_slash (args : arguments) :
  let dir := cert_save_location args in
  (dir <> ""%string -> endswith (save_location_of args) "/" = true) /\
  (dir <> ""%string -> endswith dir "/" = true -> save_location_of args = dir) /\
  (dir <> ""%string -> endswith dir "/" = false ->
   save_location_of args = dir +++ "/") /\
  (dir = ""%string -> save_location_of args = "/mnt/workspace/crt_sh"%string).
Proof.
  cbv zeta. unfold save_location_of.
  destruct (String.eqb_spec (cert_save_location args) "") as [E|E]; cbn [negb].
  - repeat split; intros; solve [contradiction | reflexivity].
  - destruct (endswith (cert_save_location args) "/") eqn:Es; cbn [negb];
      repeat split; intros;
      solve [contradiction | discriminate | reflexivity | assumption
            | apply endswith_append].
Qed.

End SweepAndPaths.


(* ================================================================== *)
(** ** One identifier through the certificate step *)

Section OneIdentifier.

Variable requests_get : nat -> string -> get_outcome.
Variable parse_data : string -> string -> option certificate.

(** The row a download leaves on disk. *)
Definition saved_file (save_location : option string) (min_cert_id : Z)
  (c_file : string) : list (string * string) :=
  match save_location with
  | Some dir => [(dir +++ str min_cert_id +++ ".crt", c_file)]
  | None => []
  end.

(** X5.  Bytes that do not parse are skipped, not fatal: the loop goes on
    with the next identifier, the collection and the known identifiers are
    as before, one request was made, and with a save location the raw bytes
    are on disk all the same, since they are written before parsing. *)
Theorem unparsable_certificate_skipped
  (existing_ids : list Z) (save_location : option string)
  (min_cert_id : Z) (rest : list Z) (c_file : string) (w : world) :
  ~ In min_cert_id existing_ids ->
  fetch_outcome requests_get (length (requests_made w))
                (cert_url min_cert_id) true = Ok (Some c_file) ->
  parse_data c_file "crt_sh" = None ->
  let step := ingest requests_get parse_data existing_ids save_location in
  fst (step min_cert_id w) = Ok tt /\
  for_each (min_cert_id :: rest) step w
  = for_each rest step (snd (step min_cert_id w)) /\
  ct_collection (snd (step min_cert_id w)) = ct_collection w /\
  requests_made (snd (step min_cert_id w))
  = requests_made w ++ [cert_url min_cert_id] /\
  files_written (snd (step min_cert_id w))
  = files_written w ++ saved_file save_location min_cert_id c_file.
Proof.
  intros Hnew Hfetch Hparse step. apply in_ints_false in Hnew.
  assert (Hrun : exists w', step min_cert_id w = (Ok tt, w') /\
            ct_collection w' = ct_collection w /\
            requests_made w' = requests_made w ++ [cert_url min_cert_id] /\
            files_written w'
            = files_written w ++ saved_file save_location min_cert_id c_file).
  { unfold step, ingest. rewrite Hnew. cbn [negb].
    unfold download_certificate, make_https_request, bind at 1 2.
    rewrite Hfetch. unfold ret at 1. unfold bind at 1.
    destruct save_location as [dir|]; unfold modify at 1, ret at 1;
      rewrite Hparse; unfold ret; eexists; (split; [reflexivity|]);
      simpl; rewrite ?app_nil_r; auto. }
  destruct Hrun as [w' [Hrun Hrest]].
  rewrite for_each_cons, Hrun. cbn [fst snd]. auto.
Qed.

(** X6.  The single retry: when the first download fails and the second
    one, three seconds later, succeeds with bytes that parse, the identifier
    is merged as if nothing had happened; exactly two requests were made to
    the same URL. *)
Theorem download_retry_succeeds
  (existing_ids : list Z) (save_location : option string)
  (min_cert_id : Z) (c_file : string) (cert : certificate) (w : world) :
  ~ In min_cert_id existing_ids ->
  fetch_outcome requests_get (length (requests_made w))
                (cert_url min_cert_id) true = Ok None ->
  fetch_outcome requests_get (S (length (requests_made w)))
                (cert_url min_cert_id) true = Ok (Some c_file) ->
  parse_data c_file "crt_sh" = Some cert ->
  let run := ingest requests_get parse_data existing_ids save_location
               min_cert_id w in
  fst run = Ok tt /\
  ct_collection (snd run) = merge_certificate min_cert_id cert (ct_collection w) /\
  requests_made (snd run)
  = requests_made w ++ [cert_url min_cert_id; cert_url min_cert_id] /\
  slept (snd run) = slept w ++ [3] /\
  files_written (snd run)
  = files_written w ++ saved_file save_location min_cert_id c_file.
Proof.
  intros Hnew H1 H2 Hparse run. apply in_ints_false in Hnew.
  assert (Hdl : download_certificate requests_get min_cert_id w
                = (Ok c_file,
                   with_requests (fun l => l ++ [cert_url min_cert_id])
                     (with_slept (fun l => l ++ [3])
                        (with_requests (fun l => l ++ [cert_url min_cert_id]) w)))).
  { unfold download_certificate, make_https_request, bind at 1.
    rewrite H1. unfold sleep, modify, bind.
    cbn [with_slept with_requests requests_made].
    rewrite length_app. simpl length. rewrite Nat.add_1_r, H2. reflexivity. }
  assert (Hrun : exists w', run = (Ok tt, w') /\
            ct_collection w' = merge_certificate min_cert_id cert (ct_collection w) /\
            requests_made w'
            = requests_made w ++ [cert_url min_cert_id; cert_url min_cert_id] /\
            slept w' = slept w ++ [3] /\
            files_written w'
            = files_written w ++ saved_file save_location min_cert_id c_file).
  { unfold run, ingest. rewrite Hnew. cbn [negb].
    unfold bind at 1. rewrite Hdl. unfold bind at 1.
    destruct save_location as [dir|]; unfold modify at 1, ret at 1;
      rewrite Hparse; unfold modify; eexists; (split; [reflexivity|]);
      simpl; rewrite <- ?app_assoc, ?app_nil_r; auto. }
  destruct Hrun as [w' [-> Hrest]]. cbn [fst snd]. auto.
Qed.

End OneIdentifier.


(* ================================================================== *)
(** ** What the certificate step keeps *)

Section StoreInvariants.

Lemma update_one_fingerprints (p : certificate -> bool)
  (u : certificate -> certificate) (c : list certificate) :
  (forall d, fingerprint_sha256 (u d) = fingerprint_sha256 d) ->
  map fingerprint_sha256 (Mongo.update_one p u c) = map fingerprint_sha256 c.
Proof.
  intros Hu. induction c as [|x c IH]; [reflexivity|]. simpl.
  destruct (p x); simpl; [now rewrite Hu | now rewrite IH].
Qed.

Lemma update_one_length (p : certificate -> bool)
  (u : certificate -> certificate) (c : list certificate) :
  length (Mongo.update_one p u c) = length c.
Proof.
  induction c as [|x c IH]; [reflexivity|]. simpl.
  destruct (p x); simpl; [reflexivity | now rewrite IH].
Qed.

Lemma count_fingerprint_zero (fp : string) (c : list certificate) :
  count_fingerprint fp c = 0%nat <-> ~ In fp (map fingerprint_sha256 c).
Proof.
  unfold count_fingerprint, Mongo.count, Mongo.find.
  induction c as [|x c IH]; simpl; [tauto|].
  destruct (has_fingerprint fp x) eqn:E; simpl.
  - apply has_fingerprint_iff in E. split; [discriminate|].
    intros H. exfalso. apply H. now left.
  - rewrite IH. split.
    + intros H [Hx|Hin]; [|contradiction].
      apply has_fingerprint_iff in Hx. congruence.
    + intros H Hin. apply H. now right.
Qed.

(** The fingerprints after a merge: the same, or one more at the end when
    the fingerprint was new. *)
Lemma merge_certificate_fingerprints (i : Z) (cert : certificate)
  (c : list certificate) :
  map fingerprint_sha256 (merge_certificate i cert c)
  = if in_strs (fingerprint_sha256 cert) (map fingerprint_sha256 c)
    then map fingerprint_sha256 c
    else map fingerprint_sha256 c ++ [fingerprint_sha256 cert].
Proof.
  unfold merge_certificate.
  fold (count_fingerprint (fingerprint_sha256 cert) c).
  destruct (count_fingerprint (fingerprint_sha256 cert) c =? 0)%nat eqn:E;
    cbn [negb].
  - apply Nat.eqb_eq, count_fingerprint_zero, in_strs_false in E. rewrite E.
    unfold Mongo.insert_one. now rewrite map_app.
  - apply Nat.eqb_neq in E.
    destruct (in_strs (fingerprint_sha256 cert) (map fingerprint_sha256 c)) eqn:Ei.
    + now apply update_one_fingerprints.
    + apply in_strs_false, count_fingerprint_zero in Ei. contradiction.
Qed.

Lemma merge_certificate_NoDup (i : Z) (cert : certificate) (c : list certificate) :
  NoDup (map fingerprint_sha256 c) ->
  NoDup (map fingerprint_sha256 (merge_certificate i cert c)).
Proof.
  intros H. rewrite merge_certificate_fingerprints.
  destruct (in_strs (fingerprint_sha256 cert) (map fingerprint_sha256 c)) eqn:E;
    [exact H|].
  apply in_strs_false in E. now apply NoDup_snoc.
Qed.

Lemma mark_expired_fingerprints (now : Z) (c : list certificate) :
  map fingerprint_sha256 (mark_expired now c) = map fingerprint_sha256 c.
Proof.
  unfold mark_expired, Mongo.update_multi. rewrite map_map.
  apply map_ext. intros d. now destruct (newly_expired now d).
Qed.

(** All the certificate step may do to a collection: documents keep their
    place, fingerprint, validity end, expiry flag and parsed fields; a link
    to crt.sh is never removed; sources only gain the tag [crt_sh]; new
    documents come at the end. *)
Definition linked_only (c c' : list certificate) : Prop :=
  (length c <= length c')%nat /\
  forall i d, nth_error c i = Some d ->
    exists d', nth_error c' i = Some d' /\
      fingerprint_sha256 d' = fingerprint_sha256 d /\
      not_after d' = not_after d /\
      isExpired d' = isExpired d /\
      other_fields d' = other_fields d /\
      (crt_sh_min_id d <> None -> crt_sh_min_id d' <> None) /\
      (forall s, In s (sources d) -> In s (sources d')) /\
      (forall s, In s (sources d') -> In s (sources d) \/ s = "crt_sh"%string).

Lemma linked_only_refl (c : list certificate) : linked_only c c.
Proof.
  split; [lia|]. intros i d H. exists d. repeat split; auto.
Qed.

Lemma linked_only_trans (a b c : list certificate) :
  linked_only a b -> linked_only b c -> linked_only a c.
Proof.
  intros [L1 H1] [L2 H2]. split; [lia|]. intros i d H.
  destruct (H1 i d H) as [d1 [N1 [F1 [A1 [E1 [O1 [C1 [S1 T1]]]]]]]].
  destruct (H2 i d1 N1) as [d2 [N2 [F2 [A2 [E2 [O2 [C2 [S2 T2]]]]]]]].
  exists d2. split; [exact N2|]. repeat split; try congruence; auto.
  intros s Hs. destruct (T2 s Hs) as [Hs1|Hs1]; auto.
Qed.

Lemma link_sources (i : Z) (d : certificate) (s : string) :
  (In s (sources d) -> In s (sources (link i d))) /\
  (In s (sources (link i d)) -> In s (sources d) \/ s = "crt_sh"%string).
Proof.
  unfold link. simpl. destruct (in_strs "crt_sh" (sources d)); split; auto.
  - intros H. apply in_or_app. now left.
  - intros H. apply in_app_or in H. destruct H as [H|[<-|[]]]; auto.
Qed.

Lemma merge_certificate_linked_only (i : Z) (cert : certificate)
  (c : list certificate) :
  linked_only c (merge_certificate i cert c).
Proof.
  unfold merge_certificate. destruct (negb _).
  - split; [now rewrite update_one_length|]. intros n d H.
    destruct (update_one_nth (has_fingerprint (fingerprint_sha256 cert))
                (fun d => Mongo.addToSet_sources "crt_sh"
                            (Mongo.set_crt_sh_min_id i d)) c n d H)
      as [d' [H' [->| ->]]].
    + exists d. repeat split; auto.
    + eexists. split; [exact H'|]. fold (link i d).
      repeat split; try reflexivity; try apply link_sources.
      simpl. discriminate.
  - unfold Mongo.insert_one. split; [rewrite length_app; lia|].
    intros n d H. exists d. split; [|repeat split; auto].
    rewrite nth_error_app1; [exact H|]. apply nth_error_Some. congruence.
Qed.

Variable requests_get : nat -> string -> get_outcome.
Variable json_decode : string -> option json_value.
Variable parse_data : string -> string -> option certificate.
Variable fetch_DNS_records : string -> list dns_result.
Variable datetime_now datetime_utcnow : Z.

(** X7.  A collection in which no two documents share a fingerprint stays
    so through the certificate step and through a whole run, however they
    end; a merge adds a fingerprint only when it is new, at the end. *)
Theorem fingerprints_stay_distinct
  (zones : list string) (args : arguments)
  (new_ids : list Z) (save_location : option string) (w : world) :
  NoDup (map fingerprint_sha256 (ct_collection w)) ->
  NoDup (map fingerprint_sha256
           (ct_collection (snd (add_new_certificate_values requests_get
                                  parse_data new_ids save_location w)))) /\
  NoDup (map fingerprint_sha256
           (ct_collection (snd (main requests_get json_decode parse_data
                                  fetch_DNS_records datetime_now
                                  datetime_utcnow zones args w)))).
Proof.
  pose (R := fun w w' : world =>
               NoDup (map fingerprint_sha256 (ct_collection w)) ->
               NoDup (map fingerprint_sha256 (ct_collection w'))).
  intros H. split.
  - apply (keeps_add_new_certificate_values requests_get parse_data
             R (fun _ => True)); unfold R; simpl; intros; auto.
    now apply merge_certificate_NoDup.
  - apply (keeps_main requests_get json_decode parse_data fetch_DNS_records
             datetime_now datetime_utcnow R (fun _ => True));
      unfold R; simpl; intros; auto.
    + now apply merge_certificate_NoDup.
    + now rewrite mark_expired_fingerprints.
Qed.

(** X8.  Through the certificate step, however it ends, every document
    keeps its place, fingerprint, validity end, expiry flag and parsed
    fields; a document that had a crt.sh identifier still has one; its
    sources keep what they had and gain at most the tag [crt_sh]; the
    collection does not shrink. *)
Theorem certificate_step_links_only
  (new_ids : list Z) (save_location : option string) (w : world) :
  linked_only (ct_collection w)
    (ct_collection (snd (add_new_certificate_values requests_get parse_data
                           new_ids save_location w))).
Proof.
  apply (keeps_add_new_certificate_values requests_get parse_data
           (fun w w' => linked_only (ct_collection w) (ct_collection w'))
           (fun _ => True));
    simpl; intros;
    eauto using linked_only_refl, linked_only_trans,
                merge_certificate_linked_only.
Qed.

End StoreInvariants.


(* ================================================================== *)
(** ** What the next call knows *)

Section NextCall.

Variable requests_get : nat -> string -> get_outcome.
Variable parse_data : string -> string -> option certificate.

Lemma update_one_hits (p : certificate -> bool) (u : certificate -> certificate)
  (c : list certificate) :
  (exists d, In d c /\ p d = true) ->
  exists d, In d c /\ p d = true /\ In (u d) (Mongo.update_one p u c).
Proof.
  induction c as [|x c IH]; intros [d [Hd Hp]]; [destruct Hd|]. simpl.
  destruct (p x) eqn:E.
  - exists x. simpl. auto.
  - destruct Hd as [<-|Hd]; [congruence|].
    destruct (IH (ex_intro _ d (conj Hd Hp))) as [d0 [H0 [P0 I0]]].
    exists d0. simpl. auto.
Qed.

(** After a merge some document carries the identifier. *)
Lemma merge_certificate_links (i : Z) (cert : certificate) (c : list certificate) :
  exists d, In d (merge_certificate i cert c) /\ crt_sh_min_id d = Some i.
Proof.
  unfold merge_certificate.
  destruct (Mongo.count (Mongo.find (has_fingerprint (fingerprint_sha256 cert)) c)
            =? 0)%nat eqn:E; cbn [negb].
  - exists (Mongo.set_crt_sh_min_id i cert). split; [|reflexivity].
    unfold Mongo.insert_one. apply in_or_app. right. now left.
  - apply Nat.eqb_neq in E. unfold Mongo.count, Mongo.find in E.
    destruct (filter (has_fingerprint (fingerprint_sha256 cert)) c)
      as [|d0 l] eqn:Ef; [contradiction|].
    assert (Hd0 : In d0 (filter (has_fingerprint (fingerprint_sha256 cert)) c))
      by (rewrite Ef; now left).
    apply filter_In in Hd0.
    destruct (update_one_hits (has_fingerprint (fingerprint_sha256 cert))
                (fun d => Mongo.addToSet_sources "crt_sh"
                            (Mongo.set_crt_sh_min_id i d)) c
                (ex_intro _ d0 Hd0)) as [d [_ [_ Hin]]].
    eexists. split; [exact Hin | reflexivity].
Qed.

Lemma add_new_certificate_values_known (min_cert_id : Z)
  (save_location : option string) (w : world) :
  In min_cert_id (get_list_of_existing_certificates (ct_collection w)) ->
  add_new_certificate_values requests_get parse_data [min_cert_id]
    save_location w = (Ok tt, w).
Proof.
  intros H. apply in_ints_iff in H.
  unfold add_new_certificate_values, gets, bind at 1.
  rewrite for_each_cons. unfold ingest. rewrite H. reflexivity.
Qed.

(** X9.  An identifier whose bytes were downloaded and parsed is known
    to the next call: calling the certificate step again with it makes no
    request and changes nothing. *)
Theorem ingested_identifier_known_next_call
  (save_location : option string) (min_cert_id : Z)
  (c_file : string) (cert : certificate) (w : world) :
  ~ In min_cert_id (get_list_of_existing_certificates (ct_collection w)) ->
  fetch_outcome requests_get (length (requests_made w))
                (cert_url min_cert_id) true = Ok (Some c_file) ->
  parse_data c_file "crt_sh" = Some cert ->
  let first := add_new_certificate_values requests_get parse_data
                 [min_cert_id] save_location w in
  fst first = Ok tt /\
  In min_cert_id (get_list_of_existing_certificates (ct_collection (snd first))) /\
  add_new_certificate_values requests_get parse_data [min_cert_id]
    save_location (snd first) = (Ok tt, snd first).
Proof.
  intros Hnew Hfetch Hparse first.
  destruct (ingest_merges requests_get parse_data _ save_location min_cert_id
              c_file cert w Hnew Hfetch Hparse) as [w1 [Hrun Hct]].
  assert (Hfirst : first = (Ok tt, w1)).
  { unfold first, add_new_certificate_values, gets, bind at 1.
    now rewrite for_each_cons, Hrun. }
  rewrite Hfirst. cbn [fst snd].
  assert (Hknown : In min_cert_id
            (get_list_of_existing_certificates (ct_collection w1))).
  { apply existing_ids_iff. rewrite Hct. apply merge_certificate_links. }
  split; [reflexivity|]. split; [exact Hknown|].
  now apply add_new_certificate_values_known.
Qed.

Lemma merge_certificate_count (i : Z) (cert : certificate) (c : list certificate) :
  (count_fingerprint (fingerprint_sha256 cert) c <= 1)%nat ->
  count_fingerprint (fingerprint_sha256 cert) (merge_certificate i cert c) = 1%nat.
Proof.
  intros Hle. unfold merge_certificate, count_fingerprint, Mongo.count,
               Mongo.find in *.
  destruct (length (filter (has_fingerprint (fingerprint_sha256 cert)) c) =? 0)%nat
    eqn:E; cbn [negb].
  - apply Nat.eqb_eq in E. unfold Mongo.insert_one.
    rewrite filter_app, length_app, E. simpl.
    unfold has_fingerprint at 1. simpl. now rewrite String.eqb_refl.
  - apply Nat.eqb_neq in E. rewrite update_one_count by reflexivity. lia.
Qed.

(** Documents of another fingerprint were there before the merge; those of
    the merged fingerprint carry the identifier when there was at most one. *)
Lemma merge_certificate_documents (i : Z) (cert : certificate)
  (c : list certificate) (d : certificate) :
  (count_fingerprint (fingerprint_sha256 cert) c <= 1)%nat ->
  In d (merge_certificate i cert c) ->
  (fingerprint_sha256 d <> fingerprint_sha256 cert /\ In d c)
  \/ (fingerprint_sha256 d = fingerprint_sha256 cert /\ crt_sh_min_id d = Some i).
Proof.
  intros Hle Hin.
  destruct (string_dec (fingerprint_sha256 d) (fingerprint_sha256 cert)) as [E|E].
  - right. split; [exact E|]. revert Hin. unfold merge_certificate.
    destruct (negb _) eqn:Eb.
    + intros Hin. apply update_one_unique in Hin;
        [|exact Hle|now apply has_fingerprint_iff].
      destruct Hin as [d0 [_ [_ ->]]]. reflexivity.
    + intros Hin. unfold Mongo.insert_one in Hin. apply in_app_or in Hin.
      destruct Hin as [Hin|[<-|[]]]; [|reflexivity].
      apply negb_false_iff, Nat.eqb_eq in Eb.
      fold (count_fingerprint (fingerprint_sha256 cert) c) in Eb.
      apply count_fingerprint_zero in Eb. exfalso. apply Eb.
      rewrite <- E. now apply in_map.
  - left. split; [exact E|]. revert Hin. unfold merge_certificate.
    destruct (negb _).
    + intros Hin. apply update_one_In in Hin.
      destruct Hin as [Hin|[d0 [_ [Hp ->]]]]; [exact Hin|].
      apply has_fingerprint_iff in Hp. exfalso. apply E. exact Hp.
    + intros Hin. unfold Mongo.insert_one in Hin. apply in_app_or in Hin.
      destruct Hin as [Hin|[<-|[]]]; [exact Hin|]. exfalso. now apply E.
Qed.

(** X10.  Two different unknown identifiers that serve the same bytes,
    ingested in one call: the second link replaces the first, so after the
    call the second identifier is known and the first is unknown again; a
    later call downloads the first identifier anew. *)
Theorem shared_certificate_first_identifier_forgotten
  (save_location : option string) (w : world) (id1 id2 : Z)
  (c_file : string) (cert : certificate) :
  let existing_ids := get_list_of_existing_certificates (ct_collection w) in
  (count_fingerprint (fingerprint_sha256 cert) (ct_collection w) <= 1)%nat ->
  id1 <> id2 -> ~ In id1 existing_ids -> ~ In id2 existing_ids ->
  (forall n, fetch_outcome requests_get n (cert_url id1) true = Ok (Some c_file)) ->
  (forall n, fetch_outcome requests_get n (cert_url id2) true = Ok (Some c_file)) ->
  parse_data c_file "crt_sh" = Some cert ->
  let run := add_new_certificate_values requests_get parse_data
               [id1; id2] save_location w in
  let later := add_new_certificate_values requests_get parse_data
                 [id1] save_location (snd run) in
  fst run = Ok tt /\
  In id2 (get_list_of_existing_certificates (ct_collection (snd run))) /\
  ~ In id1 (get_list_of_existing_certificates (ct_collection (snd run))) /\
  requests_made (snd later) = requests_made (snd run) ++ [cert_url id1].
Proof.
  intros existing_ids Hcount Hdiff Hnew1 Hnew2 Hget1 Hget2 Hparse run later.
  destruct (ingest_merges requests_get parse_data existing_ids save_location
              id1 c_file cert w Hnew1 (Hget1 _) Hparse) as [w1 [Hrun1 Hct1]].
  destruct (ingest_merges requests_get parse_data existing_ids save_location
              id2 c_file cert w1 Hnew2 (Hget2 _) Hparse) as [w2 [Hrun2 Hct2]].
  assert (Hrun : run = (Ok tt, w2)).
  { unfold run, add_new_certificate_values, gets, bind at 1.
    fold existing_ids. rewrite for_each_cons, Hrun1. cbv beta iota.
    now rewrite for_each_cons, Hrun2. }
  assert (Hunknown : ~ In id1 (get_list_of_existing_certificates (ct_collection w2))).
  { intros Hin. apply existing_ids_iff in Hin. destruct Hin as [d [Hd Hid]].
    rewrite Hct2 in Hd.
    apply merge_certificate_documents in Hd;
      [|rewrite Hct1, merge_certificate_count; [lia | exact Hcount]].
    destruct Hd as [[Hfp Hd]|[_ Hd]]; [|congruence].
    rewrite Hct1 in Hd. apply merge_certificate_documents in Hd; [|exact Hcount].
    destruct Hd as [[_ Hd]|[Hfp' _]]; [|contradiction].
    apply Hnew1. apply existing_ids_iff. exists d. auto. }
  unfold later. rewrite Hrun. cbn [fst snd].
  split; [reflexivity|]. split; [|split; [exact Hunknown|]].
  - apply existing_ids_iff. rewrite Hct2. apply merge_certificate_links.
  - unfold add_new_certificate_values, gets, bind at 1. rewrite for_each_cons.
    pose proof (ingest_requests requests_get parse_data
                  (get_list_of_existing_certificates (ct_collection w2))
                  save_location id1 w2) as Hreq.
    apply in_ints_false in Hunknown. rewrite Hunknown in Hreq.
    destruct (ingest requests_get parse_data
                (get_list_of_existing_certificates (ct_collection w2))
                save_location id1 w2) as [[[]|code|e] w3];
      cbn [snd for_each ret] in *; rewrite Hreq;
      unfold download_certificate, make_https_request, bind at 1;
      rewrite Hget1; reflexivity.
Qed.

End NextCall.


(* ================================================================== *)
(** ** How a run can end *)

Section Endings.

Variable requests_get : nat -> string -> get_outcome.
Variable json_decode : string -> option json_value.
Variable parse_data : string -> string -> option certificate.
Variable fetch_DNS_records : string -> list dns_result.
Variable datetime_now datetime_utcnow : Z.

(** An abnormal ending: an exit code or an uncaught exception. *)
Variable Q : Z + exn -> Prop.

(** [m] ends normally or in a way [Q] allows. *)
Definition ends {A} (m : M A) : Prop :=
  forall w, match fst (m w) with
            | Ok _ => True
            | Exit code => Q (inl code)
            | Raise e => Q (inr e)
            end.

Lemma ends_ret {A} (a : A) : ends (ret a).
Proof. intros w. exact I. Qed.

Lemma ends_modify (f : world -> world) : ends (modify f).
Proof. intros w. exact I. Qed.

Lemma ends_gets {A} (f : world -> A) : ends (gets f).
Proof. intros w. exact I. Qed.

Lemma ends_exit {A} (code : Z) : Q (inl code) -> ends (@exit A code).
Proof. intros H w. exact H. Qed.

Lemma ends_raise {A} (e : exn) : Q (inr e) -> ends (@raise A e).
Proof. intros H w. exact H. Qed.

Lemma ends_bind {A B} (m : M A) (k : A -> M B) :
  ends m -> (forall a, ends (k a)) -> ends (bind m k).
Proof.
  intros Hm Hk w. unfold bind. specialize (Hm w).
  destruct (m w) as [[a|code|e] w']; simpl in *; auto. apply Hk.
Qed.

Lemma ends_for_each {A} (l : list A) (body : A -> M unit) :
  (forall x, ends (body x)) -> ends (for_each l body).
Proof.
  intros H. induction l as [|x l IH]; simpl; [apply ends_ret|].
  apply ends_bind; auto.
Qed.

(** The only exceptions a fetch lets through are those [requests.get]
    raised outside the [requests] hierarchy; it never exits. *)
Definition foreign (e : exn) : Prop :=
  is_RequestException e = false /\
  exists n url, requests_get n url = GetRaises e.

Lemma fetch_outcome_endings (n : nat) (url : string) (download : bool) :
  match fetch_outcome requests_get n url download with
  | Ok _ => True
  | Exit _ => False
  | Raise e => foreign e
  end.
Proof.
  unfold fetch_outcome, try_get, raise_for_status.
  destruct (requests_get n url) as [e|req] eqn:E.
  - destruct e; simpl; auto; split; eauto.
  - destruct ((400 <=? status_code req) && (status_code req <? 600)); [exact I|].
    destruct (negb (status_code req =? 200)); [exact I|].
    destruct download; exact I.
Qed.

Hypothesis Q_foreign : forall e, foreign e -> Q (inr e).

Lemma ends_make_https_request (url : string) (download : bool) :
  ends (make_https_request requests_get url download).
Proof.
  intros w. unfold make_https_request. cbn [fst].
  pose proof (fetch_outcome_endings (length (requests_made w)) url download) as H.
  destruct (fetch_outcome requests_get (length (requests_made w)) url download);
    auto. destruct H.
Qed.

Lemma ends_download_certificate (min_cert_id : Z) :
  Q (inl 1) -> ends (download_certificate requests_get min_cert_id).
Proof.
  intros H1. unfold download_certificate.
  apply ends_bind; [apply ends_make_https_request|].
  intros [data|]; [apply ends_ret|].
  apply ends_bind; [apply ends_modify|]. intros _.
  apply ends_bind; [apply ends_make_https_request|].
  intros [data|]; [apply ends_ret | now apply ends_exit].
Qed.

Lemma ends_add_new_certificate_values (new_ids : list Z)
  (save_location : option string) :
  Q (inl 1) ->
  ends (add_new_certificate_values requests_get parse_data new_ids save_location).
Proof.
  intros H1. unfold add_new_certificate_values.
  apply ends_bind; [apply ends_gets|]. intros existing_ids.
  apply ends_for_each. intros x. unfold ingest.
  destruct (negb (in_ints x existing_ids)); [|apply ends_ret].
  apply ends_bind; [now apply ends_download_certificate|]. intros c_file.
  apply ends_bind; [destruct save_location; [apply ends_modify | apply ends_ret]|].
  intros _. destruct (parse_data c_file "crt_sh");
    [apply ends_modify | apply ends_ret].
Qed.

Lemma ends_json_loads (x : option string) :
  Q (inr TypeError) -> Q (inr JSONDecodeError) ->
  ends (json_loads json_decode x).
Proof.
  intros HT HJ. destruct x as [s|]; simpl; [|now apply ends_raise].
  destruct (json_decode s); [apply ends_ret | now apply ends_raise].
Qed.

Lemma ends_zone_loop (zones : list string) (vars : option (list string * list Z)) :
  Q (inl 0) -> Q (inr TypeError) -> Q (inr KeyError) ->
  Q (inr JSONDecodeError) ->
  ends (zone_loop requests_get json_decode zones vars).
Proof.
  intros H0 HT HK HJ. revert vars.
  induction zones as [|zone rest IH]; intros vars; simpl; [apply ends_ret|].
  apply ends_bind; [apply ends_modify|]. intros _.
  apply ends_bind.
  - unfold query_zone.
    apply ends_bind; [apply ends_make_https_request|]. intros r.
    apply ends_bind; [now apply ends_json_loads|]. intros j.
    destruct (is_None j); [|apply ends_ret].
    apply ends_bind; [apply ends_modify|]. intros _.
    apply ends_bind; [apply ends_make_https_request|]. intros r'.
    apply ends_bind; [now apply ends_json_loads|]. intros j'.
    destruct (is_None j'); [now apply ends_exit | apply ends_ret].
  - intros j. destruct j; try (now apply ends_raise). apply IH.
Qed.


Lemma ends_add_new_domain_names (hostnames zones : list string) :
  ends (add_new_domain_names fetch_DNS_records datetime_now hostnames zones).
Proof. intros w. now rewrite add_new_domain_names_run. Qed.

Lemma ends_bind_with {A B} (P : A -> Prop) (m : M A) (k : A -> M B) :
  ends m -> (forall w a w', m w = (Ok a, w') -> P a) ->
  (forall a, P a -> ends (k a)) -> ends (bind m k).
Proof.
  intros Hm HP Hk w. unfold bind. specialize (Hm w). specialize (HP w).
  destruct (m w) as [[a|code|e] w']; simpl in *; auto.
  apply Hk. now apply (HP a w').
Qed.

(** Once bound, the loop variables stay bound; a loop over at least one
    zone binds them. *)
Lemma zone_loop_bound (zones : list string) (vars : option (list string * list Z))
  (w w' : world) (v : option (list string * list Z)) :
  zone_loop requests_get json_decode zones vars w = (Ok v, w') ->
  (vars <> None \/ zones <> []) -> v <> None.
Proof.
  revert vars w. induction zones as [|zone rest IH]; intros vars w Hrun Hor.
  - simpl in Hrun. injection Hrun as <- _. destruct Hor as [H|H]; congruence.
  - simpl in Hrun. unfold bind at 1, sleep, modify in Hrun.
    unfold bind at 1 in Hrun.
    destruct (query_zone requests_get json_decode zone _) as [[j|c|e] w1];
      try discriminate.
    destruct j as [|entries| |]; try discriminate.
    apply (IH _ _ Hrun). left. discriminate.
Qed.

Lemma ends_main (zones : list string) (args : arguments) :
  Q (inl 0) -> Q (inr TypeError) -> Q (inr KeyError) ->
  Q (inr JSONDecodeError) ->
  (zones = [] -> Q (inr UnboundLocalError)) ->
  (download_methods args <> None -> Q (inl 1)) ->
  ends (main requests_get json_decode parse_data fetch_DNS_records
             datetime_now datetime_utcnow zones args).
Proof.
  intros H0 HT HK HJ HU H1.
  assert (Hlocal : forall A (v : option A),
            (v = None -> zones = []) -> ends (local v)).
  { intros A [a|] Hv; [apply ends_ret|]. apply ends_raise. now apply HU, Hv. }
  assert (Hharvest :
    forall w v w',
      harvest requests_get json_decode fetch_DNS_records datetime_now
              zones args w = (Ok v, w') ->
      v = None -> zones = []).
  { intros w v w' Hrun ->. destruct zones as [|zone rest]; [reflexivity|].
    exfalso. unfold harvest in Hrun.
    unfold bind at 1, modify at 1 in Hrun. unfold bind at 1 in Hrun.
    destruct (match download_methods args with
              | Some dbAndSave => check_save_location (save_location_of args)
              | _ => ret tt
              end _) as [[[]|c|e] w1]; try discriminate.
    unfold bind at 1 in Hrun.
    destruct (zone_loop requests_get json_decode (zone :: rest) None w1)
      as [[v|c|e] w2] eqn:El; try discriminate.
    apply zone_loop_bound in El; [|right; discriminate].
    unfold bind at 1 in Hrun.
    destruct ((if fetch_dns_records args
               then names_ids <- local v;;
                    add_new_domain_names fetch_DNS_records datetime_now
                      (fst names_ids) (zone :: rest)
               else ret tt) w2) as [[[]|c|e] w3]; try discriminate.
    unfold ret in Hrun. injection Hrun as Hv _. contradiction. }
  unfold main. apply (ends_bind_with (fun v => v = None -> zones = [])).
  - unfold harvest. rewrite check_save_location_of_args.
    apply ends_bind; [apply ends_modify|]. intros _.
    apply ends_bind.
    { destruct (download_methods args) as [[|]|];
        first [apply ends_ret | apply ends_modify]. }
    intros _.
    apply (ends_bind_with (fun v => v = None -> zones = []));
      [now apply ends_zone_loop | |].
    + intros w v w' Hrun ->. destruct zones as [|zone rest]; [reflexivity|].
      apply zone_loop_bound in Hrun; [contradiction | right; discriminate].
    + intros vars Hvars.
      apply ends_bind; [|intros _; apply ends_ret].
      destruct (fetch_dns_records args); [|apply ends_ret].
      apply ends_bind; [now apply Hlocal|]. intros names_ids.
      apply ends_add_new_domain_names.
  - exact Hharvest.
  - intros vars Hvars. apply ends_bind; [|intros _].
    + destruct (download_methods args) as [[|]|] eqn:Em; [| |apply ends_ret];
        (apply ends_bind; [now apply Hlocal|]); intros names_ids;
        apply ends_add_new_certificate_values; apply H1; discriminate.
    + apply ends_bind; [apply ends_modify|]. intros _. apply ends_modify.
Qed.

End Endings.

Section RunEndings.

Variable requests_get : nat -> string -> get_outcome.
Variable json_decode : string -> option json_value.
Variable parse_data : string -> string -> option certificate.
Variable fetch_DNS_records : string -> list dns_result.
Variable datetime_now datetime_utcnow : Z.


(** A run, phase by phase. *)
Lemma main_run (zones : list string) (args : arguments) (w : world) :
  main requests_get json_decode parse_data fetch_DNS_records
       datetime_now datetime_utcnow zones args w
  = match harvest requests_get json_decode fetch_DNS_records datetime_now
                  zones args w with
    | (Ok vars, w1) =>
        match (match download_methods args with
               | Some dbAndSave =>
                   names_ids <- local vars ;;
                   add_new_certificate_values requests_get parse_data
                     (snd names_ids) (Some (save_location_of args))
               | Some dbOnly =>
                   names_ids <- local vars ;;
                   add_new_certificate_values requests_get parse_data
                     (snd names_ids) None
               | None => ret tt
               end) w1 with
        | (Ok _, w2) =>
            (Ok tt, with_jobs (fun l => l ++ [JobComplete])
                      (with_ct (mark_expired datetime_utcnow) w2))
        | (Exit code, w2) => (Exit code, w2)
        | (Raise e, w2) => (Raise e, w2)
        end
    | (Exit code, w1) => (Exit code, w1)
    | (Raise e, w1) => (Raise e, w1)
    end.
Proof.
  unfold main. unfold bind at 1.
  destruct (harvest requests_get json_decode fetch_DNS_records datetime_now
                    zones args w) as [[vars|c|e] w1]; reflexivity.
Qed.


(** X12.  With no tracked zone the loop never binds [new_names] and
    [new_ids]: a run asked for DNS records or for downloads dies with
    [UnboundLocalError] before touching the collection, without a request;
    only a run asked for neither completes, and it just sweeps. *)
Theorem main_without_zones (args : arguments) (w : world) :
  let run := main requests_get json_decode parse_data fetch_DNS_records
                  datetime_now datetime_utcnow [] args w in
  requests_made (snd run) = requests_made w /\
  dns_inserted (snd run) = dns_inserted w /\
  (fetch_dns_records args = true \/ download_methods args <> None ->
   fst run = Raise UnboundLocalError /\
   ct_collection (snd run) = ct_collection w) /\
  (fetch_dns_records args = false /\ download_methods args = None ->
   fst run = Ok tt /\
   ct_collection (snd run) = mark_expired datetime_utcnow (ct_collection w)).
Proof.
  cbv zeta. unfold main, harvest. rewrite check_save_location_of_args.
  destruct args as [dns [[|]|] dir]; destruct dns;
    (split; [reflexivity|]); (split; [reflexivity|]); split;
    try (intros _; split; reflexivity);
    try (intros [H1 H2]; discriminate);
    try (intros [H|H]; [discriminate | now elim H]).
Qed.

(** The result of a zone query, read off the two answers. *)
Lemma query_zone_result (zone : string) (w : world) :
  let n := length (requests_made w) in
  fst (query_zone requests_get json_decode zone w)
  = match fetch_outcome requests_get n (zone_url zone) false with
    | Ok (Some body1) =>
        match json_decode body1 with
        | Some JNull =>
            match fetch_outcome requests_get (S n) (zone_url zone) false with
            | Ok (Some body2) =>
                match json_decode body2 with
                | Some JNull => Exit 0
                | Some json_result => Ok json_result
                | None => Raise JSONDecodeError
                end
            | Ok None => Raise TypeError
            | Exit code => Exit code
            | Raise e => Raise e
            end
        | Some json_result => Ok json_result
        | None => Raise JSONDecodeError
        end
    | Ok None => Raise TypeError
    | Exit code => Exit code
    | Raise e => Raise e
    end.
Proof.
  cbv zeta.
  unfold query_zone, make_https_request, json_loads, sleep, modify, bind,
    ret, raise, exit.
  destruct (fetch_outcome requests_get (length (requests_made w))
              (zone_url zone) false) as [[body1|]|c|e]; try reflexivity.
  destruct (json_decode body1) as [[|entries| |]|]; try reflexivity.
  cbn [is_None with_slept with_requests requests_made].
  rewrite length_app. cbn [length]. rewrite Nat.add_1_r.
  destruct (fetch_outcome requests_get (S (length (requests_made w)))
              (zone_url zone) false) as [[body2|]|c|e]; try reflexivity.
  destruct (json_decode body2) as [[|entries| |]|]; reflexivity.
Qed.

(** X13.  A zone query leaves through [exit], and then with code 0,
    exactly when both the first answer and the answer to the retry are
    bodies that decode to JSON [null]; a failed fetch never leads there. *)
Theorem query_zone_exits_on_null_twice (zone : string) (w : world) (code : Z) :
  let n := length (requests_made w) in
  fst (query_zone requests_get json_decode zone w) = Exit code <->
  code = 0 /\
  exists body1 body2,
    fetch_outcome requests_get n (zone_url zone) false = Ok (Some body1) /\
    json_decode body1 = Some JNull /\
    fetch_outcome requests_get (S n) (zone_url zone) false = Ok (Some body2) /\
    json_decode body2 = Some JNull.
Proof.
  cbv zeta. rewrite query_zone_result.
  pose proof (fetch_outcome_endings requests_get (length (requests_made w))
                (zone_url zone) false) as E1.
  pose proof (fetch_outcome_endings requests_get (S (length (requests_made w)))
                (zone_url zone) false) as E2.
  split.
  - destruct (fetch_outcome requests_get (length (requests_made w))
                (zone_url zone) false) as [[body1|]|c|e];
      try discriminate; try contradiction.
    destruct (json_decode body1) as [[|entries| |]|] eqn:D1; try discriminate.
    destruct (fetch_outcome requests_get (S (length (requests_made w)))
                (zone_url zone) false) as [[body2|]|c|e];
      try discriminate; try contradiction.
    destruct (json_decode body2) as [[|entries| |]|] eqn:D2; try discriminate.
    intros Hc. injection Hc as <-. split; [reflexivity|].
    exists body1, body2. auto.
  - intros [-> [body1 [body2 [F1 [D1 [F2 D2]]]]]].
    now rewrite F1, D1, F2, D2.
Qed.

End RunEndings.


(* ================================================================== *)
(** ** The sweep that closes a run *)

Section ExpirySweep.

Lemma mark_expired_In (now : Z) (c : list certificate) (d : certificate) :
  In d (mark_expired now c) ->
  exists d0, In d0 c /\
    d = (if newly_expired now d0 then Mongo.set_isExpired true d0 else d0).
Proof.
  unfold mark_expired, Mongo.update_multi. intros H.
  apply in_map_iff in H. destruct H as [d0 [Hd Hin]]. exists d0. auto.
Qed.

(** After the sweep at [now], no document that ended before [now] is left
    with the flag off. *)
Lemma mark_expired_complete (now : Z) (c : list certificate) (d : certificate) :
  In d (mark_expired now c) -> not_after d < now -> isExpired d = true.
Proof.
  intros Hin Hlt. apply mark_expired_In in Hin. destruct Hin as [d0 [_ ->]].
  destruct (newly_expired now d0) eqn:E; [reflexivity|].
  destruct (isExpired d0) eqn:Ex; [reflexivity|].
  assert (Hy : newly_expired now d0 = true)
    by (apply newly_expired_iff; auto).
  congruence.
Qed.

Variable requests_get : nat -> string -> get_outcome.
Variable json_decode : string -> option json_value.
Variable parse_data : string -> string -> option certificate.
Variable fetch_DNS_records : string -> list dns_result.
Variable datetime_now datetime_utcnow : Z.

(** The collection as the sweep of a run finds it: the steps before the
    sweep only link documents and add new ones; a run that ends normally
    ends with the sweep of that collection at [datetime.utcnow()], and a run
    that ends otherwise never reaches the sweep. *)
Lemma main_before_sweep (zones : list string) (args : arguments) (w : world) :
  let run := main requests_get json_decode parse_data fetch_DNS_records
                  datetime_now datetime_utcnow zones args w in
  exists before,
    linked_only (ct_collection w) before /\
    match fst run with
    | Ok _ => ct_collection (snd run) = mark_expired datetime_utcnow before
    | _ => ct_collection (snd run) = before
    end.
Proof.
  cbv zeta. rewrite main_run.
  pose (L := fun w w' : world =>
               linked_only (ct_collection w) (ct_collection w')).
  assert (Lr : forall w, L w w) by (intros; apply linked_only_refl).
  assert (Lt : forall a b c, L a b -> L b c -> L a c)
    by (unfold L; intros; eapply linked_only_trans; eauto).
  assert (Hh : L w (snd (harvest requests_get json_decode fetch_DNS_records
                           datetime_now zones args w))).
  { apply (keeps_harvest requests_get json_decode fetch_DNS_records
             datetime_now L (fun _ => True)); auto;
      unfold L; simpl; intros; apply linked_only_refl. }
  assert (Hc : forall ids save w1,
            L w1 (snd (add_new_certificate_values requests_get parse_data
                         ids save w1))).
  { intros ids save.
    apply (keeps_add_new_certificate_values requests_get parse_data L
             (fun _ => True)); auto; unfold L; simpl; intros;
      auto using linked_only_refl, merge_certificate_linked_only. }
  assert (Hstep : forall (vars : option (list string * list Z)) save w1,
            L w1 (snd ((names_ids <- local vars ;;
                        add_new_certificate_values requests_get parse_data
                          (snd names_ids) save) w1))).
  { intros [names_ids|] save w1; [apply Hc | apply Lr]. }
  destruct (harvest requests_get json_decode fetch_DNS_records datetime_now
                    zones args w) as [[vars|c|e] w1]; cbn [fst snd] in *;
    [| exists (ct_collection w1); split; [exact Hh | reflexivity] ..].
  assert (Hing : L w1 (snd (match download_methods args with
                            | Some dbAndSave =>
                                names_ids <- local vars ;;
                                add_new_certificate_values requests_get
                                  parse_data (snd names_ids)
                                  (Some (save_location_of args))
                            | Some dbOnly =>
                                names_ids <- local vars ;;
                                add_new_certificate_values requests_get
                                  parse_data (snd names_ids) None
                            | None => ret tt
                            end w1))).
  { destruct (download_methods args) as [[|]|];
      [apply Hstep | apply Hstep | apply Lr]. }
  destruct (match download_methods args with
            | Some dbAndSave => _
            | Some dbOnly => _
            | None => ret tt
            end w1) as [[[]|c|e] w2]; cbn [fst snd] in *;
    exists (ct_collection w2); (split; [exact (Lt _ _ _ Hh Hing) | reflexivity]).
Qed.

(** C6.  Along a whole run, however it ends, and along the certificate
    step alone, a document that was expired keeps its place and stays
    expired.  The sweep keeps the collection's length, turns the flag on for
    exactly the documents whose [not_after] is strictly before the given
    time and whose flag is off, and leaves every other document as it was.
    A run that ends normally ends with that sweep, taken at
    [datetime.utcnow()], of a collection in which the earlier steps changed
    no validity end and no flag: afterwards no document that ended before
    that time has the flag off, and a document of the initial collection has
    the flag on exactly when it had it on or ended before that time.  A run
    that ends otherwise has not swept: every flag is as it was. *)
Theorem isExpired_never_reverts
  (zones : list string) (args : arguments)
  (new_ids : list Z) (save_location : option string) (w : world) :
  let run := main requests_get json_decode parse_data fetch_DNS_records
                  datetime_now datetime_utcnow zones args w in
  expiry_kept (ct_collection w) (ct_collection (snd run)) /\
  expiry_kept (ct_collection w)
    (ct_collection (snd (add_new_certificate_values requests_get parse_data
                           new_ids save_location w))) /\
  (forall now c, length (mark_expired now c) = length c) /\
  (forall now c i d, nth_error c i = Some d ->
     exists d', nth_error (mark_expired now c) i = Some d' /\
       (not_after d < now /\ isExpired d = false ->
          d' = Mongo.set_isExpired true d /\ isExpired d' = true) /\
       (~ (not_after d < now /\ isExpired d = false) -> d' = d)) /\
  (fst run = Ok tt ->
   exists before,
     linked_only (ct_collection w) before /\
     ct_collection (snd run) = mark_expired datetime_utcnow before) /\
  (fst run = Ok tt ->
   forall d, In d (ct_collection (snd run)) ->
     not_after d < datetime_utcnow -> isExpired d = true) /\
  (fst run = Ok tt ->
   forall i d, nth_error (ct_collection w) i = Some d ->
     exists d', nth_error (ct_collection (snd run)) i = Some d' /\
       not_after d' = not_after d /\
       (isExpired d' = true <->
        isExpired d = true \/ not_after d < datetime_utcnow)) /\
  (fst run <> Ok tt ->
   forall i d, nth_error (ct_collection w) i = Some d ->
     exists d', nth_error (ct_collection (snd run)) i = Some d' /\
       not_after d' = not_after d /\ isExpired d' = isExpired d).
Proof.
  intros run.
  destruct (expiry_kept_along_runs requests_get json_decode parse_data
              fetch_DNS_records datetime_now datetime_utcnow
              zones args new_ids save_location w) as [H1 [H2 [H3 H4]]].
  destruct (main_before_sweep zones args w) as [before [Hlink Hend]].
  fold run in Hend.
  split; [exact H1|]. split; [exact H2|]. split; [exact H3|].
  split; [exact H4|].
  split; [|split; [|split]].
  - intros Hok. rewrite Hok in Hend. exists before. auto.
  - intros Hok d Hin Hlt. rewrite Hok in Hend. rewrite Hend in Hin.
    now apply (mark_expired_complete datetime_utcnow before d).
  - intros Hok i d Hnth. rewrite Hok in Hend. rewrite Hend.
    destruct Hlink as [_ Hlink].
    destruct (Hlink i d Hnth) as [d1 [N1 [_ [A1 [E1 _]]]]].
    rewrite (mark_expired_nth datetime_utcnow before i d1 N1).
    eexists. split; [reflexivity|].
    destruct (newly_expired datetime_utcnow d1) eqn:E.
    + apply newly_expired_iff in E. destruct E as [Elt _].
      split; [simpl; exact A1|]. split; [|reflexivity].
      intros _. right. now rewrite <- A1.
    + split; [exact A1|]. rewrite E1. split; [auto|].
      intros [Hx|Hlt]; [exact Hx|].
      destruct (isExpired d) eqn:Ex; [reflexivity|].
      assert (Hy : newly_expired datetime_utcnow d1 = true)
        by (apply newly_expired_iff; split; congruence).
      congruence.
  - intros Hno i d Hnth.
    destruct (fst run) as [[]|c|e] eqn:Er; [now elim Hno | |];
      rewrite Hend; destruct Hlink as [_ Hlink];
      destruct (Hlink i d Hnth) as [d1 [N1 [_ [A1 [E1 _]]]]];
      exists d1; auto.
Qed.

End ExpirySweep.


(* ================================================================== *)
(** ** Precedence among tracked zones *)

Section Precedence.

Lemma append_assoc (a b c : string) : (a +++ b) +++ c = a +++ (b +++ c).
Proof. induction a as [|x a IH]; simpl; [reflexivity | now rewrite IH]. Qed.

(** A name under a zone is under every zone that zone is under. *)
Lemma suffix_match_trans (name child parent : string) :
  suffix_match name child -> suffix_match child parent ->
  suffix_match name parent.
Proof.
  intros [->|[p ->]] H; [exact H|].
  destruct H as [->|[q ->]].
  - right. now exists p.
  - right. exists (p +++ "." +++ q). now rewrite !append_assoc.
Qed.

(** X14.  Attribution goes by the order of the list, not by the longest
    match: when a zone is listed before one of its sub-zones, no name is ever
    attributed to the sub-zone; names under it go to the parent or to a zone
    listed earlier still. *)
Theorem parent_zone_listed_first_wins
  (name parent child : string) (before rest : list string) :
  suffix_match child parent -> child <> parent -> ~ In child before ->
  get_tracked_zone name (before ++ parent :: rest) <> Some child /\
  (suffix_match name child ->
   exists z, get_tracked_zone name (before ++ parent :: rest) = Some z /\
             In z (before ++ [parent])).
Proof.
  intros Hsub Hneq Hnotin.
  induction before as [|b before IH]; cbn [app get_tracked_zone].
  - destruct (endswith name ("." +++ parent) || String.eqb name parent) eqn:E.
    + split; [congruence|]. intros _. exists parent. simpl. auto.
    + assert (Hno : ~ suffix_match name parent).
      { intros H. apply suffix_match_test in H. congruence. }
      split.
      * intros H. apply get_tracked_zone_Some in H.
        destruct H as [b' [a' [_ [Hm _]]]].
        apply Hno. eapply suffix_match_trans; eauto.
      * intros Hm. exfalso. apply Hno. eapply suffix_match_trans; eauto.
  - destruct (endswith name ("." +++ b) || String.eqb name b) eqn:E.
    + split.
      * intros H. injection H as ->. apply Hnotin. now left.
      * intros _. exists b. simpl. auto.
    + destruct IH as [IH1 IH2]; [intros H; apply Hnotin; now right|].
      split; [exact IH1|]. intros Hm.
      destruct (IH2 Hm) as [z [Hz Hin]]. exists z. simpl. auto.
Qed.

Lemma parent_zone_witness :
  get_tracked_zone "www.a.example.com"
    ([] ++ "example.com"%string :: ["a.example.com"%string])
  <> Some "a.example.com"%string /\
  (suffix_match "www.a.example.com" "a.example.com" ->
   exists z, get_tracked_zone "www.a.example.com"
               ([] ++ "example.com"%string :: ["a.example.com"%string])
             = Some z /\
             In z ([] ++ ["example.com"%string])).
Proof.
  apply (parent_zone_listed_first_wins "www.a.example.com" "example.com"
           "a.example.com" [] ["a.example.com"%string]).
  - right. exists "a"%string. reflexivity.
  - discriminate.
  - intros [].
Defined.

End Precedence.


(* ================================================================== *)
(** ** Requests, rows and files *)

Section Traffic.

Lemma append_inj_l (a b t : string) : a +++ t = b +++ t -> a = b.
Proof.
  revert b. induction a as [|x a IH]; intros [|y b] H; simpl in H.
  - reflexivity.
  - exfalso. apply (f_equal String.length) in H. simpl in H.
    rewrite length_append in H. lia.
  - exfalso. apply (f_equal String.length) in H. simpl in H.
    rewrite length_append in H. lia.
  - injection H as -> H. f_equal. now apply IH.
Qed.

Variable requests_get : nat -> string -> get_outcome.
Variable json_decode : string -> option json_value.
Variable parse_data : string -> string -> option certificate.
Variable fetch_DNS_records : string -> list dns_result.
Variable datetime_now datetime_utcnow : Z.

(** One turn of the zone loop. *)
Lemma zone_loop_cons (zone : string) (rest : list string)
  (vars : option (list string * list Z)) (w : world) :
  zone_loop requests_get json_decode (zone :: rest) vars w
  = match query_zone requests_get json_decode zone
            (with_slept (fun l => l ++ [5]) w) with
    | (Ok (JArray entries), w1) =>
        zone_loop requests_get json_decode rest (Some (collect entries)) w1
    | (Ok JMissingKey, w1) => (Raise KeyError, w1)
    | (Ok _, w1) => (Raise TypeError, w1)
    | (Exit code, w1) => (Exit code, w1)
    | (Raise e, w1) => (Raise e, w1)
    end.
Proof.
  cbn [zone_loop]. unfold bind at 1, sleep, modify. unfold bind at 1.
  destruct (query_zone requests_get json_decode zone _) as [[[| | |]|c|e] w1];
    reflexivity.
Qed.

Lemma zone_loop_app (a b : list string) (vars : option (list string * list Z))
  (w : world) :
  zone_loop requests_get json_decode (a ++ b) vars w
  = match zone_loop requests_get json_decode a vars w with
    | (Ok v, w1) => zone_loop requests_get json_decode b v w1
    | (Exit code, w1) => (Exit code, w1)
    | (Raise e, w1) => (Raise e, w1)
    end.
Proof.
  revert vars w. induction a as [|z a IH]; intros vars w; [reflexivity|].
  simpl app. rewrite !zone_loop_cons.
  destruct (query_zone requests_get json_decode z _) as [[[| | |]|c|e] w1];
    auto.
Qed.

(** X15.  What the zone loop hands on when it completes is what it
    gathered from the answer for the last zone of the list: the entries of
    the zones before it are not in it unless the last answer repeats them. *)
Theorem zone_loop_result_is_last_zone
  (init : list string) (last : string) (vars v : option (list string * list Z))
  (w w' : world) :
  zone_loop requests_get json_decode (init ++ [last]) vars w = (Ok v, w') ->
  exists w1 entries,
    query_zone requests_get json_decode last w1 = (Ok (JArray entries), w') /\
    v = Some (collect entries).
Proof.
  rewrite zone_loop_app.
  destruct (zone_loop requests_get json_decode init vars w)
    as [[v0|c|e] w0]; try discriminate.
  rewrite zone_loop_cons.
  destruct (query_zone requests_get json_decode last _)
    as [[[|entries| |]|c|e] w1] eqn:Eq; try discriminate.
  cbn [zone_loop]. unfold ret. intros H. injection H as <- <-.
  eexists. exists entries. split; [exact Eq | reflexivity].
Qed.





End Traffic.

Section Sinks.

Variable requests_get : nat -> string -> get_outcome.
Variable json_decode : string -> option json_value.
Variable parse_data : string -> string -> option certificate.
Variable fetch_DNS_records : string -> list dns_result.
Variable datetime_now datetime_utcnow : Z.

(** X17.  DNS rows come from the DNS step alone: the certificate step
    never inserts one, and a run without [--fetch_dns_records] leaves the
    rows as they were, however it ends. *)
Theorem dns_rows_only_when_asked
  (zones : list string) (args : arguments)
  (new_ids : list Z) (save_location : option string) (w : world) :
  dns_inserted (snd (add_new_certificate_values requests_get parse_data
                       new_ids save_location w)) = dns_inserted w /\
  (fetch_dns_records args = false ->
   dns_inserted (snd (main requests_get json_decode parse_data
                        fetch_DNS_records datetime_now datetime_utcnow
                        zones args w)) = dns_inserted w).
Proof.
  pose (R := fun w w' : world => dns_inserted w' = dns_inserted w).
  assert (Rr : forall w, R w w) by reflexivity.
  assert (Rt : forall a b c, R a b -> R b c -> R a c)
    by (unfold R; congruence).
  assert (Hstep : forall ids save,
            keeps R (add_new_certificate_values requests_get parse_data ids save)).
  { intros ids save.
    apply (keeps_add_new_certificate_values requests_get parse_data R
             (fun _ => True)); auto; intros; reflexivity. }
  split; [apply Hstep|]. intros Hflag.
  assert (Hmain : keeps R (main requests_get json_decode parse_data
                             fetch_DNS_records datetime_now datetime_utcnow
                             zones args)).
  { unfold main, harvest. rewrite check_save_location_of_args, Hflag.
    apply (keeps_bind R Rt).
    - apply (keeps_bind R Rt); [apply keeps_modify; reflexivity|]. intros _.
      apply (keeps_bind R Rt).
      { destruct (download_methods args) as [[|]|];
          first [apply (keeps_ret R Rr) | apply keeps_modify; reflexivity]. }
      intros _. apply (keeps_bind R Rt).
      { apply (keeps_zone_loop requests_get json_decode R (fun _ => True));
          auto; intros; reflexivity. }
      intros vars. apply (keeps_bind R Rt); intros; apply (keeps_ret R Rr).
    - intros vars. apply (keeps_bind R Rt).
      { destruct (download_methods args) as [[|]|];
          [| |apply (keeps_ret R Rr)];
          (apply (keeps_bind R Rt); [apply (keeps_local R Rr)|]);
          intros names_ids; apply Hstep. }
      intros _. apply (keeps_bind R Rt); [|intros _];
        apply keeps_modify; reflexivity. }
  apply Hmain.
Qed.

Lemma download_certificate_files (min_cert_id : Z) (w : world) :
  files_written (snd (download_certificate requests_get min_cert_id w))
  = files_written w.
Proof.
  apply (keeps_download_certificate requests_get
           (fun w w' => files_written w' = files_written w) (fun _ => True));
    auto; intros; try reflexivity. congruence.
Qed.

Lemma ingest_files (existing_ids : list Z) (save_location : option string)
  (min_cert_id : Z) (w : world) :
  exists added,
    files_written (snd (ingest requests_get parse_data existing_ids
                          save_location min_cert_id w))
    = files_written w ++ added /\
    (added = [] \/
     exists dir c_file,
       save_location = Some dir /\ ~ In min_cert_id existing_ids /\
       added = [(dir +++ str min_cert_id +++ ".crt", c_file)]).
Proof.
  unfold ingest. destruct (in_ints min_cert_id existing_ids) eqn:E; cbn [negb].
  - exists []. simpl. rewrite app_nil_r. auto.
  - apply in_ints_false in E. unfold bind at 1.
    pose proof (download_certificate_files min_cert_id w) as Hd.
    destruct (download_certificate requests_get min_cert_id w)
      as [[c_file|c|e] w1]; cbn [snd] in *;
      [| exists []; rewrite app_nil_r; auto ..].
    unfold bind at 1. destruct save_location as [dir|];
      unfold modify at 1, ret at 1.
    + exists [(dir +++ str min_cert_id +++ ".crt", c_file)]. split.
      * destruct (parse_data c_file "crt_sh"); simpl; now rewrite Hd.
      * right. exists dir, c_file. auto.
    + exists []. rewrite app_nil_r. split; [|now left].
      destruct (parse_data c_file "crt_sh"); simpl; exact Hd.
Qed.

(** X18.  Files on disk: without a save location the certificate step
    writes none; with one, every file it writes is named by the save
    location, then an identifier of its input that was unknown at the start,
    then [.crt]; two identifiers never share a file name. *)
Theorem certificate_files_named_by_identifier
  (new_ids : list Z) (save_location : option string) (w : world) :
  let run := add_new_certificate_values requests_get parse_data
               new_ids save_location w in
  let snapshot := get_list_of_existing_certificates (ct_collection w) in
  (exists added,
     files_written (snd run) = files_written w ++ added /\
     (save_location = None -> added = []) /\
     (forall name c_file, In (name, c_file) added ->
        exists dir i,
          save_location = Some dir /\ In i new_ids /\ ~ In i snapshot /\
          name = dir +++ str i +++ ".crt")) /\
  (forall dir i j,
     dir +++ str i +++ ".crt" = dir +++ str j +++ ".crt" -> i = j).
Proof.
  cbv zeta. split.
  - unfold add_new_certificate_values, gets, bind at 1. cbv beta iota.
    generalize (get_list_of_existing_certificates (ct_collection w))
      as existing_ids.
    intros existing_ids. revert w.
    induction new_ids as [|x l IH]; intros w.
    + exists []. simpl. rewrite app_nil_r. repeat split; auto. intros ? ? [].
    + rewrite for_each_cons.
      destruct (ingest_files existing_ids save_location x w) as [a1 [Ha1 Hshape]].
      assert (Hsound : forall name c_file, In (name, c_file) a1 ->
                exists dir i, save_location = Some dir /\ In i (x :: l) /\
                              ~ In i existing_ids /\
                              name = dir +++ str i +++ ".crt").
      { intros name c_file Hin. destruct Hshape as [->|[dir [c [Hs [Hn ->]]]]];
          [destruct Hin|].
        destruct Hin as [Heq|[]]. injection Heq as <- <-.
        exists dir, x. simpl. auto. }
      assert (Hnone : save_location = None -> a1 = []).
      { intros ->. destruct Hshape as [->|[dir [c [Hs _]]]];
          [reflexivity | discriminate]. }
      destruct (ingest requests_get parse_data existing_ids save_location x w)
        as [[[]|c|e] w1]; cbn [snd] in *;
        [| exists a1; split; [exact Ha1 | split; [exact Hnone | exact Hsound]] ..].
      destruct (IH w1) as [a2 [Ha2 [Hn2 Hs2]]].
      exists (a1 ++ a2). split; [rewrite Ha2, Ha1; now rewrite app_assoc|].
      split.
      * intros Hs. rewrite (Hnone Hs), (Hn2 Hs). reflexivity.
      * intros name c_file Hin. apply in_app_or in Hin.
        destruct Hin as [Hin|Hin]; [now apply (Hsound name c_file)|].
        destruct (Hs2 name c_file Hin) as [dir [i [Hd [Hi [Hu Hname]]]]].
        exists dir, i. simpl. auto.
  - intros dir i j H. apply append_inj_r in H. apply append_inj_l in H.
    now apply str_inj.
Qed.

End Sinks.


(* ================================================================== *)
(** ** More concrete runs *)

Section MoreRuns.

(** A crt.sh that serves bytes no parser accepts. *)
Definition garbage_get (_ : nat) (_ : string) : get_outcome :=
  GetReturns (mkResponse 200 "junk" "junk").

(** A crt.sh whose first answer of the run times out. *)
Definition flaky_get (n : nat) (url : string) : get_outcome :=
  if (n =? 0)%nat then GetRaises Timeout else example_get n url.

(** Identifier 7 serves junk: it is skipped, the file is kept. *)
Lemma unparsable_certificate_witness :
  let step := ingest garbage_get example_parse [] (Some "/tmp/crt_sh/"%string) in
  fst (step 7 empty_world) = Ok tt /\
  for_each [7; 8] step empty_world = for_each [8] step (snd (step 7 empty_world)) /\
  ct_collection (snd (step 7 empty_world)) = ct_collection empty_world /\
  requests_made (snd (step 7 empty_world))
  = requests_made empty_world ++ [cert_url 7] /\
  files_written (snd (step 7 empty_world))
  = files_written empty_world
    ++ saved_file (Some "/tmp/crt_sh/"%string) 7 "junk".
Proof.
  apply (unparsable_certificate_skipped garbage_get example_parse []
           (Some "/tmp/crt_sh/"%string) 7 [8] "junk" empty_world).
  - intros [].
  - reflexivity.
  - reflexivity.
Defined.

(** The first download of identifier 100 times out, the retry succeeds. *)
Lemma download_retry_witness :
  let run := ingest flaky_get example_parse [] None 100 empty_world in
  fst run = Ok tt /\
  ct_collection (snd run)
  = merge_certificate 100 example_cert (ct_collection empty_world) /\
  requests_made (snd run)
  = requests_made empty_world ++ [cert_url 100; cert_url 100] /\
  slept (snd run) = slept empty_world ++ [3] /\
  files_written (snd run)
  = files_written empty_world ++ saved_file None 100 "CERT-abc".
Proof.
  apply (download_retry_succeeds flaky_get example_parse [] None 100
           "CERT-abc" example_cert empty_world).
  - intros [].
  - reflexivity.
  - reflexivity.
  - reflexivity.
Defined.

(** One document, two identifiers for it, one zone: still one fingerprint. *)
Lemma fingerprints_stay_distinct_witness :
  NoDup (map fingerprint_sha256
           (ct_collection (snd (add_new_certificate_values example_get
                                  example_parse [100; 200] None
                                  (store [example_cert]))))) /\
  NoDup (map fingerprint_sha256
           (ct_collection (snd (main example_get example_decode example_parse
                                  example_dns 0 1800000000
                                  ["a.example"%string]
                                  (example_args true (Some dbOnly))
                                  (store [example_cert]))))).
Proof.
  apply (fingerprints_stay_distinct example_get example_decode example_parse
           example_dns 0 1800000000 ["a.example"%string]
           (example_args true (Some dbOnly)) [100; 200] None
           (store [example_cert])).
  simpl. constructor; [intros [] | constructor].
Defined.

(** Identifier 100, once ingested, is not fetched by the next call. *)
Lemma ingested_identifier_witness :
  let first := add_new_certificate_values example_get example_parse
                 [100] None empty_world in
  fst first = Ok tt /\
  In 100 (get_list_of_existing_certificates (ct_collection (snd first))) /\
  add_new_certificate_values example_get example_parse [100] None (snd first)
  = (Ok tt, snd first).
Proof.
  apply (ingested_identifier_known_next_call example_get example_parse
           None 100 "CERT-abc" example_cert empty_world).
  - intros [].
  - reflexivity.
  - reflexivity.
Defined.

(** Identifiers 100 and 200 share their bytes: after both, 100 is unknown. *)
Lemma shared_certificate_witness :
  let run := add_new_certificate_values example_get example_parse
               [100; 200] None empty_world in
  let later := add_new_certificate_values example_get example_parse
                 [100] None (snd run) in
  fst run = Ok tt /\
  In 200 (get_list_of_existing_certificates (ct_collection (snd run))) /\
  ~ In 100 (get_list_of_existing_certificates (ct_collection (snd run))) /\
  requests_made (snd later) = requests_made (snd run) ++ [cert_url 100].
Proof.
  apply (shared_certificate_first_identifier_forgotten example_get example_parse
           None empty_world 100 200 "CERT-abc" example_cert).
  - vm_compute. lia.
  - lia.
  - intros [].
  - intros [].
  - intros n. reflexivity.
  - intros n. reflexivity.
  - reflexivity.
Defined.

(** Zones [a.example] then [b.example]: the loop hands on [b.example]'s. *)
Lemma zone_loop_result_witness :
  exists w1 entries,
    query_zone example_get example_decode "b.example" w1
    = (Ok (JArray entries),
       snd (zone_loop example_get example_decode
              (["a.example"%string] ++ ["b.example"%string]) None empty_world)) /\
    Some (["www.b.example"%string], [200]) = Some (collect entries).
Proof.
  apply (zone_loop_result_is_last_zone example_get example_decode
           ["a.example"%string] "b.example" None
           (Some (["www.b.example"%string], [200]))
           empty_world
           (snd (zone_loop example_get example_decode
                   (["a.example"%string] ++ ["b.example"%string])
                   None empty_world))).
  vm_compute. reflexivity.
Defined.

(** A complete run that downloads: an old document past its end and the
    document the run stores both come out flagged. *)
Lemma isExpired_sweep_witness :
  let w := store [mkCert "old" None 1000 false [] []] in
  let run := main example_get example_decode example_parse example_dns 0
               1800000000 ["b.example"%string]
               (example_args false (Some dbOnly)) w in
  fst run = Ok tt /\
  map fingerprint_sha256 (ct_collection (snd run))
  = ["old"%string; "abc"%string] /\
  map isExpired (ct_collection (snd run)) = [true; true] /\
  (forall d, In d (ct_collection (snd run)) ->
     not_after d < 1800000000 -> isExpired d = true).
Proof.
  split; [reflexivity|]. split; [reflexivity|]. split; [reflexivity|].
  destruct (isExpired_never_reverts example_get example_decode example_parse
              example_dns 0 1800000000 ["b.example"%string]
              (example_args false (Some dbOnly)) [] None
              (store [mkCert "old" None 1000 false [] []]))
    as [_ [_ [_ [_ [_ [H _]]]]]].
  apply H. reflexivity.
Defined.

End MoreRuns.


(* ================================================================== *)
(** ** Label boundaries, pacing, known identifiers, job markers *)

Section Boundaries.

Lemma append_last_inj (a b : string) (x y : ascii) :
  a +++ String x "" = b +++ String y "" -> x = y.
Proof.
  revert b. induction a as [|c a IH]; intros [|d b] H; simpl in H.
  - now injection H.
  - injection H as _ H. destruct b; discriminate.
  - injection H as _ H. destruct a; discriminate.
  - injection H as _ H. now apply (IH b).
Qed.

Lemma append_cons_middle (p : string) (c : ascii) (s : string) :
  p +++ String c s = (p +++ String c "") +++ s.
Proof. now rewrite append_assoc. Qed.

(** A name that merely ends with the characters of the zone, without a dot
    before them, is not under the zone. *)
Lemma no_suffix_match_inside_label (p : string) (c : ascii) (zone : string) :
  c <> "."%char -> ~ suffix_match (p +++ String c zone) zone.
Proof.
  intros Hc [H|[q H]].
  - apply (f_equal String.length) in H. rewrite length_append in H.
    simpl in H. lia.
  - assert (Hr : q +++ "." +++ zone = (q +++ String "." "") +++ zone)
      by (rewrite append_assoc; reflexivity).
    rewrite append_cons_middle, Hr in H.
    apply append_inj_l, append_last_inj in H. contradiction.
Qed.

(** X19.  Zones match on label boundaries only: a name made of a tracked
    zone with further characters glued in front, the last of them not a dot,
    is attributed to that zone by no list of zones, and to no zone at all
    when the list holds that zone alone. *)
Theorem no_attribution_inside_label
  (p : string) (c : ascii) (zone : string) (zones : list string) :
  c <> "."%char ->
  get_tracked_zone (p +++ String c zone) [zone] = None /\
  (~ In zone zones \/ get_tracked_zone (p +++ String c zone) zones <> Some zone).
Proof.
  intros Hc.
  pose proof (no_suffix_match_inside_label p c zone Hc) as Hno.
  split.
  - apply get_tracked_zone_None. intros z [<-|[]]. exact Hno.
  - right. intros H. apply get_tracked_zone_Some in H.
    destruct H as [b [a [_ [Hm _]]]]. contradiction.
Qed.

Lemma no_attribution_witness :
  get_tracked_zone ("evil" +++ String "-" "example.com") ["example.com"%string]
  = None /\
  (~ In "example.com"%string ["other.org"%string; "example.com"%string] \/
   get_tracked_zone ("evil" +++ String "-" "example.com")
     ["other.org"%string; "example.com"%string] <> Some "example.com"%string).
Proof.
  apply (no_attribution_inside_label "evil" "-" "example.com"
           ["other.org"%string; "example.com"%string]).
  discriminate.
Defined.

Variable requests_get : nat -> string -> get_outcome.
Variable json_decode : string -> option json_value.
Variable parse_data : string -> string -> option certificate.
Variable fetch_DNS_records : string -> list dns_result.
Variable datetime_now datetime_utcnow : Z.

Lemma query_zone_pacing (zone : string) (w : world) :
  let w' := snd (query_zone requests_get json_decode zone w) in
  exists rs ss,
    requests_made w' = requests_made w ++ rs /\
    slept w' = slept w ++ ss /\
    ((rs = [zone_url zone] /\ ss = []) \/
     (rs = [zone_url zone; zone_url zone] /\ ss = [3])).
Proof.
  cbv zeta.
  unfold query_zone, make_https_request, json_loads, sleep, modify, bind,
    ret, raise, exit.
  destruct (fetch_outcome requests_get (length (requests_made w))
              (zone_url zone) false) as [[body1|]|c|e];
    try (exists [zone_url zone], []; cbn; rewrite app_nil_r; now auto).
  destruct (json_decode body1) as [[|entries| |]|];
    try (exists [zone_url zone], []; cbn; rewrite app_nil_r; now auto).
  exists [zone_url zone; zone_url zone], [3].
  cbn [is_None with_slept with_requests requests_made slept].
  destruct (fetch_outcome requests_get _ (zone_url zone) false)
    as [[body2|]|c|e]; try (cbn; rewrite <- app_assoc; now auto).
  destruct (json_decode body2) as [[|entries| |]|];
    cbn; rewrite <- app_assoc; now auto.
Qed.

(** One turn of the zone loop: the zone, and whether its query was
    retried; the requests it makes and the sleeps it takes. *)
Definition turn_requests (t : string * bool) : list string :=
  if snd t then [zone_url (fst t); zone_url (fst t)] else [zone_url (fst t)].

Definition turn_sleeps (t : string * bool) : list Z :=
  if snd t then [5; 3] else [5].

(** X20.  Pacing of the zone loop, turn by turn.  However the loop ends,
    it went through the zones in their order, as far as the zone it ended
    at, and through all of them when it completed.  Each zone it reached
    accounts for one sleep of five seconds and one request for the zone's
    URL, or, when the query was retried, for a sleep of five seconds, then
    one of three, and two requests for that URL; the log of requests and the
    log of sleeps hold exactly these, in the order of the zones. *)
Theorem zone_loop_paced_turn_by_turn
  (zones : list string) (vars : option (list string * list Z)) (w : world) :
  let run := zone_loop requests_get json_decode zones vars w in
  exists turns : list (string * bool),
    (exists rest, zones = map fst turns ++ rest) /\
    (forall v, fst run = Ok v -> map fst turns = zones) /\
    requests_made (snd run)
    = requests_made w ++ flat_map turn_requests turns /\
    slept (snd run) = slept w ++ flat_map turn_sleeps turns.
Proof.
  revert vars w. induction zones as [|zone rest IH]; intros vars w; cbv zeta.
  - exists []. simpl. rewrite !app_nil_r. repeat split; auto. now exists [].
  - rewrite zone_loop_cons.
    destruct (query_zone_pacing zone (with_slept (fun l => l ++ [5]) w))
      as [r1 [s1 [Hr1 [Hs1 Hshape]]]]. cbv zeta in *.
    cbn [with_slept requests_made slept] in Hr1, Hs1.
    assert (Hturn : exists retried,
              r1 = turn_requests (zone, retried) /\
              5 :: s1 = turn_sleeps (zone, retried)).
    { destruct Hshape as [[-> ->]|[-> ->]];
        [exists false | exists true]; split; reflexivity. }
    destruct Hturn as [retried [Er Es]].
    assert (Hstop : forall w1 : world,
              requests_made w1 = requests_made w ++ r1 ->
              slept w1 = (slept w ++ [5]) ++ s1 ->
              exists turns : list (string * bool),
                (exists rest', zone :: rest = map fst turns ++ rest') /\
                requests_made w1
                = requests_made w ++ flat_map turn_requests turns /\
                slept w1 = slept w ++ flat_map turn_sleeps turns).
    { intros w1 Hr Hs. exists [(zone, retried)]. split; [now exists rest|].
      cbn [flat_map]. rewrite !app_nil_r, <- Er, <- Es. split; [exact Hr|].
      rewrite Hs, <- app_assoc. reflexivity. }
    destruct (query_zone requests_get json_decode zone _)
      as [[[|entries| |]|c|e] w1]; cbn [fst snd] in *;
      [destruct (Hstop w1 Hr1 Hs1) as [turns [Hp [Hr Hs]]];
       exists turns; repeat split; auto; discriminate
      | | destruct (Hstop w1 Hr1 Hs1) as [turns [Hp [Hr Hs]]];
          exists turns; repeat split; auto; discriminate ..].
    destruct (IH (Some (collect entries)) w1)
      as [turns [[rest' Hp] [Hall [Hr2 Hs2]]]].
    cbv zeta in *. exists ((zone, retried) :: turns).
    split; [exists rest'; simpl; now rewrite <- Hp|].
    split; [intros v Hv; simpl; now rewrite (Hall v Hv)|].
    cbn [flat_map]. rewrite <- Er, <- Es. split.
    + rewrite Hr2, Hr1. now rewrite app_assoc.
    + rewrite Hs2, Hs1. simpl. now rewrite <- !app_assoc.
Qed.

(** X21.  Identifiers that are all known make the certificate step a
    no-op: it ends normally and the world is exactly as before, with no
    request, no sleep, no file and no change to the collection. *)
Theorem known_identifiers_no_op
  (new_ids : list Z) (save_location : option string) (w : world) :
  (forall i, In i new_ids ->
     exists d, In d (ct_collection w) /\ crt_sh_min_id d = Some i) ->
  add_new_certificate_values requests_get parse_data new_ids save_location w
  = (Ok tt, w).
Proof.
  intros Hknown.
  unfold add_new_certificate_values, gets, bind at 1.
  assert (Hall : forall i, In i new_ids ->
            in_ints i (get_list_of_existing_certificates (ct_collection w)) = true).
  { intros i Hi. apply in_ints_iff, existing_ids_iff. now apply Hknown. }
  generalize (get_list_of_existing_certificates (ct_collection w)) Hall.
  intros existing_ids Hin. clear Hknown Hall.
  induction new_ids as [|x l IH]; [reflexivity|].
  rewrite for_each_cons. unfold ingest at 1. rewrite (Hin x) by now left.
  cbn [negb]. unfold ret at 1. apply IH. intros i Hi. apply Hin. now right.
Qed.

End Boundaries.

Section JobMarkers.

Variable requests_get : nat -> string -> get_outcome.
Variable json_decode : string -> option json_value.
Variable parse_data : string -> string -> option certificate.
Variable fetch_DNS_records : string -> list dns_result.
Variable datetime_now datetime_utcnow : Z.

(** The job log is left alone. *)
Definition same_jobs (w w' : world) : Prop := jobs w' = jobs w.

(** A start marker, a middle part and a step that leave the job log alone,
    and a tail that completes the job. *)
Lemma jobs_bracket {A} (mid : M A) (step : A -> M unit) (tail : M unit)
  (w : world) :
  keeps same_jobs mid -> (forall a, keeps same_jobs (step a)) ->
  (forall w0, fst (tail w0) = Ok tt /\
              jobs (snd (tail w0)) = jobs w0 ++ [JobComplete]) ->
  let run := bind (bind (modify (with_jobs (fun l => l ++ [JobStart])))
                        (fun _ => mid))
                  (fun a => bind (step a) (fun _ => tail)) w in
  jobs (snd run)
  = jobs w ++ JobStart :: match fst run with
                          | Ok _ => [JobComplete]
                          | _ => []
                          end.
Proof.
  intros Hmid Hstep Htail. cbv zeta. unfold bind, modify.
  specialize (Hmid (with_jobs (fun l => l ++ [JobStart]) w)).
  unfold same_jobs in *.
  destruct (mid (with_jobs (fun l => l ++ [JobStart]) w)) as [[a|c|e] w1];
    cbn [fst snd] in *; try (rewrite Hmid; reflexivity).
  specialize (Hstep a w1).
  destruct (step a w1) as [[[]|c|e] w2]; cbn [fst snd] in *;
    try (rewrite Hstep, Hmid; reflexivity).
  destruct (Htail w2) as [Hok Hjobs].
  destruct (tail w2) as [r w3]; cbn [fst snd] in *. subst r.
  rewrite Hjobs, Hstep, Hmid. simpl. now rewrite <- app_assoc.
Qed.

(** X22.  The job markers: every run records its start first; it records
    its completion exactly when it ends normally, and then last.  A run that
    exits or dies with an exception is left marked as started only. *)
Theorem job_completed_only_on_normal_end
  (zones : list string) (args : arguments) (w : world) :
  let run := main requests_get json_decode parse_data fetch_DNS_records
                  datetime_now datetime_utcnow zones args w in
  jobs (snd run)
  = jobs w ++ JobStart :: match fst run with
                          | Ok _ => [JobComplete]
                          | _ => []
                          end.
Proof.
  assert (Rr : forall w, same_jobs w w) by reflexivity.
  assert (Rt : forall a b c, same_jobs a b -> same_jobs b c -> same_jobs a c)
    by (unfold same_jobs; congruence).
  unfold main, harvest.
  apply (jobs_bracket
           (match download_methods args with
            | Some dbAndSave => check_save_location (save_location_of args)
            | _ => ret tt
            end ;;
            vars <- zone_loop requests_get json_decode zones None ;;
            (if fetch_dns_records args then
               names_ids <- local vars ;;
               add_new_domain_names fetch_DNS_records datetime_now
                 (fst names_ids) zones
             else ret tt) ;;
            ret vars)).
  - apply (keeps_bind same_jobs Rt).
    { destruct (download_methods args) as [[|]|];
        first [apply (keeps_ret same_jobs Rr)
              | apply keeps_check_save_location; [exact Rr | intros; reflexivity]]. }
    intros _. apply (keeps_bind same_jobs Rt).
    { apply (keeps_zone_loop requests_get json_decode same_jobs (fun _ => True));
        auto; intros; reflexivity. }
    intros vars. apply (keeps_bind same_jobs Rt);
      [|intros; apply (keeps_ret same_jobs Rr)].
    destruct (fetch_dns_records args); [|apply (keeps_ret same_jobs Rr)].
    apply (keeps_bind same_jobs Rt); [apply (keeps_local same_jobs Rr)|].
    intros names_ids.
    apply (keeps_add_new_domain_names fetch_DNS_records datetime_now same_jobs).
    intros; reflexivity.
  - intros vars.
    destruct (download_methods args) as [[|]|];
      [| |apply (keeps_ret same_jobs Rr)];
      (apply (keeps_bind same_jobs Rt); [apply (keeps_local same_jobs Rr)|]);
      intros names_ids;
      apply (keeps_add_new_certificate_values requests_get parse_data
               same_jobs (fun _ => True)); auto; intros; reflexivity.
  - intros w0. split; reflexivity.
Qed.

(** Identifier 100 is carried by the one document: nothing happens. *)
Lemma known_identifiers_no_op_witness :
  add_new_certificate_values service_down example_parse [100; 100] None
    (store [mkCert "abc" (Some 100) 1700000000 false [] []])
  = (Ok tt, store [mkCert "abc" (Some 100) 1700000000 false [] []]).
Proof.
  apply (known_identifiers_no_op service_down example_parse [100; 100] None
           (store [mkCert "abc" (Some 100) 1700000000 false [] []])).
  intros i [<-|[<-|[]]]; eexists; (split; [left; reflexivity | reflexivity]).
Defined.

End JobMarkers.
